(** * Dashboard-machine: the machine collection store, its persistence hook
      and the view projection, embedded from the TypeScript sources.

    Sources embedded here:
    - the hook [useMachines]: addMachine, updateMachine, deleteMachine,
      undoDelete
    - the hook [useLocalStorage]: dateReviver, the state initialiser, the
      write-back effect
      (both hooks follow the seed data in [src/data/seedMachines.ts])
    - [src/App.tsx]: filteredMachines
    - [src/components/AddMachineForm.tsx]: submit
    - [src/data/seedMachines.ts]: seedMachines

    JavaScript strings are sequences of UTF-16 code units; they are modelled as
    [list N].  Array indices and the result of [findIndex] are JavaScript
    numbers holding integers; they are modelled in [Z], so that the [-1] of
    [findIndex] and the clamping done by [splice] are written out. *)

From Stdlib Require Import ZArith List Bool Ascii String.
From Stdlib Require PrimFloat.
From stdpp Require Import base decidable option list gmap pretty.
Import ListNotations.
Open Scope Z_scope.

(* ===================================================================== *)
(** * Part I: definitions                                                  *)
(* ===================================================================== *)

(** ** JavaScript strings *)

(** An ASCII literal as a sequence of code units. *)
Fixpoint js (s : string) : list N :=
  match s with
  | EmptyString => []
  | String a s' => N_of_ascii a :: js s'
  end.

(** ** String.prototype methods used by the form and the projection *)

(** The code units [trim] strips: WhiteSpace and LineTerminator of the
    language specification (TAB, LF, VT, FF, CR, SP, NBSP, the Unicode space
    separators, LS, PS and the byte order mark). *)
Definition isWhiteSpace (c : N) : bool :=
  ((9 <=? c) && (c <=? 13)
   || (c =? 32) || (c =? 160) || (c =? 5760)
   || (8192 <=? c) && (c <=? 8202)
   || (c =? 8232) || (c =? 8233) || (c =? 8239) || (c =? 8287)
   || (c =? 12288) || (c =? 65279))%N.

Fixpoint trimStart (s : list N) : list N :=
  match s with
  | [] => []
  | c :: s' => if isWhiteSpace c then trimStart s' else s
  end.

Definition trimEnd (s : list N) : list N := rev (trimStart (rev s)).

Definition trim (s : list N) : list N := trimEnd (trimStart s).

(** Does [s] begin with [search]? *)
Fixpoint startsWith (s search : list N) {struct search} : bool :=
  match search, s with
  | [], _ => true
  | _ :: _, [] => false
  | c :: search', d :: s' => (c =? d)%N && startsWith s' search'
  end.

(** [s.includes(search)]: [search] occurs in [s] at some index. *)
Fixpoint includes (s search : list N) : bool :=
  startsWith s search
  || match s with
     | [] => false
     | _ :: s' => includes s' search
     end.

(** ** Array.prototype methods used by the store *)

(** [findIndex]: the index of the first element satisfying [p], scanning from
    index [k] upwards; [-1] when the scan reaches the end. *)
Fixpoint findIndex_from {A : Type} (p : A -> bool) (k : Z) (l : list A) : Z :=
  match l with
  | [] => -1
  | x :: l' => if p x then k else findIndex_from p (k + 1) l'
  end.

Definition findIndex {A : Type} (p : A -> bool) (l : list A) : Z :=
  findIndex_from p 0 l.

(** [splice(start, deleteCount, ...items)] on an array of length [len]:
    a negative [start] counts from the end and is raised to [0], a [start]
    beyond the end is lowered to [len]; [deleteCount] is clamped to what
    remains after the start. *)
Definition splice_actualStart (len start : Z) : Z :=
  if start <? 0 then Z.max (len + start) 0 else Z.min start len.

Definition splice_actualDeleteCount (len actualStart deleteCount : Z) : Z :=
  Z.min (Z.max deleteCount 0) (len - actualStart).

Definition splice {A : Type} (l : list A) (start deleteCount : Z) (items : list A)
  : list A :=
  let len := Z.of_nat (length l) in
  let actualStart := splice_actualStart len start in
  let actualDeleteCount := splice_actualDeleteCount len actualStart deleteCount in
  take (Z.to_nat actualStart) l ++ items
    ++ drop (Z.to_nat (actualStart + actualDeleteCount)) l.

(** ** The data model ([src/types/Machine.ts]) *)

(** Modelled from the spec: [src/enums/MachineStatus.ts] is not part of the
    sources at hand; the spec gives the closed enumeration
    {Idle, Running, Offline}. *)
Inductive MachineStatus : Type := Idle | Running | Offline.

#[global] Instance MachineStatus_eq_dec : EqDecision MachineStatus.
Proof. solve_decision. Defined.

(** A [Date] is represented by its time value, milliseconds since the epoch. *)
Abbreviation Date := Z (only parsing).

Record Machine : Type := {
  id : list N;
  name : list N;
  status : MachineStatus;
  lastUpdated : Date
}.

#[global] Instance Machine_eq_dec : EqDecision Machine.
Proof. solve_decision. Defined.

(** The one-slot undo buffer of [useMachines]. *)
Record LastDeleted : Type := {
  machine : Machine;
  index : Z
}.

(** How many records of a collection carry the id [i]. *)
Definition occurrences (i : list N) (ms : list Machine) : nat :=
  length (List.filter (fun m => bool_decide (id m = i)) ms).

(** ** The state of [useMachines]

    [machines] is the value held by [useLocalStorage], [lastDeleted] the
    [useState] slot of the hook, [localStorage] the browser store. *)
Record State : Type := {
  machines : list Machine;
  lastDeleted : option LastDeleted;
  localStorage : gmap (list N) (list N)
}.

(** ** JavaScript values as [JSON.parse] builds them *)

(** Numbers are IEEE 754 binary64.  [JDate] is a [Date] object with a valid
    time value; [JSON.parse] itself never builds one, the reviver does. *)
#[local] Unset Elimination Schemes.
Inductive jsval : Type :=
  | JNull
  | JBool (b : bool)
  | JNumber (x : PrimFloat.float)
  | JString (str : list N)
  | JDate (t : Date)
  | JArray (elements : list jsval)
  | JObject (properties : list (list N * jsval)).
#[local] Set Elimination Schemes.

(** Induction over values, with the hypothesis available for every element
    of an array and every property value of an object. *)
Section JsvalInduction.
Variable P : jsval -> Prop.
Hypothesis Hnull : P JNull.
Hypothesis Hbool : forall b, P (JBool b).
Hypothesis Hnumber : forall x, P (JNumber x).
Hypothesis Hstring : forall str, P (JString str).
Hypothesis Hdate : forall t, P (JDate t).
Hypothesis Harray : forall elements, Forall P elements -> P (JArray elements).
Hypothesis Hobject :
  forall properties, Forall (fun kv => P (snd kv)) properties -> P (JObject properties).

Fixpoint jsval_nested_ind (v : jsval) : P v :=
  match v with
  | JNull => Hnull
  | JBool b => Hbool b
  | JNumber x => Hnumber x
  | JString str => Hstring str
  | JDate t => Hdate t
  | JArray elements =>
      Harray elements
        ((fix all (l : list jsval) : Forall P l :=
            match l with
            | [] => List.Forall_nil P
            | x :: l' => List.Forall_cons P x l' (jsval_nested_ind x) (all l')
            end) elements)
  | JObject properties =>
      Hobject properties
        ((fix all (l : list (list N * jsval)) : Forall (fun kv => P (snd kv)) l :=
            match l with
            | [] => List.Forall_nil _
            | kv :: l' =>
                List.Forall_cons (fun kv => P (snd kv)) kv l'
                  (jsval_nested_ind (snd kv)) (all l')
            end) properties)
  end.

End JsvalInduction.

(** The walk [JSON.parse] does when given a reviver: the properties of an
    array or object are internalized first, each under its own key (for an
    array, the index in decimal), then the reviver is called on the value.
    Revivers that return [undefined] to drop a property are not covered;
    [dateReviver] is not one of them. *)
Fixpoint internalize (reviver : list N -> jsval -> jsval) (name : list N)
  (val : jsval) {struct val} : jsval :=
  let val' :=
    match val with
    | JArray elements =>
        JArray
          ((fix each (I : nat) (l : list jsval) {struct l} : list jsval :=
              match l with
              | [] => []
              | x :: l' => internalize reviver (js (pretty I)) x :: each (S I) l'
              end) 0%nat elements)
    | JObject properties =>
        JObject
          (map (fun kv => (fst kv, internalize reviver (fst kv) (snd kv)))
               properties)
    | _ => val
    end in
  reviver name val'.

(** The string leaves of a value: property keys are not among them. *)
Fixpoint string_leaves (v : jsval) : list (list N) :=
  match v with
  | JString str => [str]
  | JArray elements => concat (map string_leaves elements)
  | JObject properties => concat (map (fun kv => string_leaves (snd kv)) properties)
  | _ => []
  end.

(** Truthiness of what [localStorage.getItem] returns: [null] (no entry)
    and the empty string are falsy, every other string is truthy. *)
Definition truthy (stored : option (list N)) : bool :=
  match stored with
  | None => false
  | Some [] => false
  | Some (_ :: _) => true
  end.

(** ** [useLocalStorage] *)

Section UseLocalStorage.

(** The text parser of [JSON.parse], [None] where it throws a SyntaxError,
    and the time value of [new Date(text)], [None] where it is NaN. *)
Variable JSON_parse_text : list N -> option jsval.
Variable Date_parse : list N -> option Date.

Definition dateReviver (_key : list N) (value : jsval) : jsval :=
  match value with
  | JString str =>
      match Date_parse str with
      | Some date => JDate date
      | None => value
      end
  | _ => value
  end.

(** [JSON.parse(text, reviver)]; the root is internalized under the empty
    key. *)
Definition JSON_parse (text : list N) (reviver : list N -> jsval -> jsval)
  : option jsval :=
  internalize reviver [] <$> JSON_parse_text text.

(** What the spec asks of deserialization: every string leaf that parses
    as a valid date becomes that date, all else stays. *)
Fixpoint convert_date_strings (v : jsval) : jsval :=
  match v with
  | JString str =>
      match Date_parse str with
      | Some date => JDate date
      | None => JString str
      end
  | JArray elements => JArray (map convert_date_strings elements)
  | JObject properties =>
      JObject (map (fun kv => (fst kv, convert_date_strings (snd kv))) properties)
  | _ => v
  end.

(** The hook is generic in the type [T] of the value; [parse] is
    [JSON.parse(stored, dateReviver)] seen at that type. *)
Context {T : Type}.
Variable stringify : T -> list N.
Variable parse : list N -> option T.

(** The initialiser passed to [useState]; [seed] is [None] for
    [undefined]; the result is [None] when [JSON.parse] throws. *)
Definition useLocalStorage_init (key : list N) (initialValue : T) (seed : option T)
  (storage : gmap (list N) (list N)) : option (T * gmap (list N) (list N)) :=
  let stored := storage !! key in
  if truthy stored then
    match parse (default [] stored) with
    | Some v => Some (v, storage)
    | None => None
    end
  else
    match seed with
    | Some sd => Some (sd, <[key := stringify sd]> storage)
    | None => Some (initialValue, storage)
    end.

(** The effect: [localStorage.setItem(key, JSON.stringify(value))]. *)
Definition useLocalStorage_effect (key : list N) (value : T)
  (storage : gmap (list N) (list N)) : gmap (list N) (list N) :=
  <[key := stringify value]> storage.

(** Mounting: the initialiser, the first render, then the effect. *)
Definition useLocalStorage_mount (key : list N) (initialValue : T) (seed : option T)
  (storage : gmap (list N) (list N)) : option (T * gmap (list N) (list N)) :=
  match useLocalStorage_init key initialValue seed storage with
  | Some (value, storage') => Some (value, useLocalStorage_effect key value storage')
  | None => None
  end.

(** The three cases of loading as the spec words them: a value under the
    key is deserialized; else a seed is persisted and returned; else the
    default is returned and nothing is written. *)
Definition load_as_specified (key : list N) (initialValue : T) (seed : option T)
  (storage : gmap (list N) (list N)) : option (T * gmap (list N) (list N)) :=
  match storage !! key with
  | Some stored =>
      match parse stored with
      | Some v => Some (v, storage)
      | None => None
      end
  | None =>
      match seed with
      | Some sd => Some (sd, <[key := stringify sd]> storage)
      | None => Some (initialValue, storage)
      end
  end.

End UseLocalStorage.

(** ** [useMachines] *)

Section UseMachines.

(** [JSON.stringify] at the type of the collection. *)
Variable JSON_stringify : list Machine -> list N.

Definition key : list N := js "machines".

(** [setMachines] with a fresh array: the component renders again with the
    new value and the effect, whose dependency [value] has changed, runs. *)
Definition setMachines (next : list Machine) (s : State) : State :=
  {| machines := next;
     lastDeleted := lastDeleted s;
     localStorage := useLocalStorage_effect JSON_stringify key next (localStorage s) |}.

Definition setLastDeleted (d : option LastDeleted) (s : State) : State :=
  {| machines := machines s;
     lastDeleted := d;
     localStorage := localStorage s |}.

Definition addMachine (m : Machine) (s : State) : State :=
  setMachines (machines s ++ [m]) s.

Definition updateMachine (updated : Machine) (s : State) : State :=
  setMachines
    (map (fun m => if bool_decide (id m = id updated) then updated else m)
         (machines s))
    s.

(** When the updater returns [prev] itself React keeps the state and nothing
    is rendered again.  The last branch of the [match] cannot be taken:
    [findIndex] only returns [-1] or the index of an element. *)
Definition deleteMachine (i : list N) (s : State) : State :=
  let prev := machines s in
  let index := findIndex (fun m => bool_decide (id m = i)) prev in
  if index =? -1 then s
  else
    match prev !! Z.to_nat index with
    | Some m =>
        setMachines
          (List.filter (fun m => negb (bool_decide (id m = i))) prev)
          (setLastDeleted (Some {| machine := m; index := index |}) s)
    | None => s
    end.

Definition undoDelete (s : State) : State :=
  match lastDeleted s with
  | None => s
  | Some d =>
      setLastDeleted None
        (setMachines (splice (machines s) (index d) 0 [machine d]) s)
  end.

(** The four operations the hook hands out, and mounting the hook:
    [useLocalStorage<Machine[]>('machines', [], seedMachines)] with an empty
    undo buffer. *)
Inductive Op : Type :=
  | Add (m : Machine)
  | Update (updated : Machine)
  | Delete (i : list N)
  | Undo.

Definition run (op : Op) (s : State) : State :=
  match op with
  | Add m => addMachine m s
  | Update updated => updateMachine updated s
  | Delete i => deleteMachine i s
  | Undo => undoDelete s
  end.

(** [JSON.parse(stored, dateReviver)] at the type of the collection. *)
Variable JSON_parse_machines : list N -> option (list Machine).
Variable seed : list Machine.

Definition useMachines_mount (storage : gmap (list N) (list N)) : option State :=
  match useLocalStorage_mount JSON_stringify JSON_parse_machines key [] (Some seed)
          storage with
  | Some (value, storage') =>
      Some {| machines := value; lastDeleted := None; localStorage := storage' |}
  | None => None
  end.

(** The states the hook can be in: mounted, then any operations. *)
Inductive reachable : State -> Prop :=
  | reachable_mount storage s :
      useMachines_mount storage = Some s -> reachable s
  | reachable_run op s :
      reachable s -> reachable (run op s).

(** The store holds the serialization of the collection in memory. *)
Definition persisted (s : State) : Prop :=
  localStorage s !! key = Some (JSON_stringify (machines s)).

End UseMachines.

(** ** [src/App.tsx]: the view projection *)

(** [type StatusFilterValue = MachineStatus | 'ALL']. *)
Inductive StatusFilterValue : Type :=
  | ALL
  | Status (st : MachineStatus).

#[global] Instance StatusFilterValue_eq_dec : EqDecision StatusFilterValue.
Proof. solve_decision. Defined.

Section Projection.

(** [String.prototype.toLowerCase], a function of the engine. *)
Variable toLowerCase : list N -> list N.

Definition filteredMachines (machines : list Machine)
  (statusFilter : StatusFilterValue) (searchQuery : list N) : list Machine :=
  List.filter
    (fun machine =>
       let matchesStatus :=
         bool_decide (statusFilter = ALL)
         || bool_decide (Status (status machine) = statusFilter) in
       let matchesSearch :=
         includes (toLowerCase (name machine)) (toLowerCase searchQuery) in
       matchesStatus && matchesSearch)
    machines.

End Projection.

(** ** [src/components/AddMachineForm.tsx]

    The three [useState] slots of the form, [name], [status] and [error]. *)
Record AddMachineForm : Type := {
  form_name : list N;
  form_status : MachineStatus;
  form_error : list N
}.

(** [submit]; [uuid] is what [crypto.randomUUID()] returns and [now] the
    time of [new Date()]. *)
Definition submit (onAdd : Machine -> State -> State) (uuid : list N) (now : Date)
  (form : AddMachineForm) (s : State) : AddMachineForm * State :=
  if (length (trim (form_name form)) <? 2)%nat then
    ({| form_name := form_name form;
        form_status := form_status form;
        form_error := js "Name must be at least 2 characters" |},
     s)
  else
    ({| form_name := []; form_status := Idle; form_error := [] |},
     onAdd {| id := uuid; name := form_name form; status := form_status form;
              lastUpdated := now |} s).

(** ** [EditMachineForm] and [MachineCard]

    The three [useState] slots of the edit form; they start from the machine
    being edited, with no error. *)
Record EditMachineForm : Type := {
  edit_name : list N;
  edit_status : MachineStatus;
  edit_error : list N
}.

Definition EditMachineForm_open (machine : Machine) : EditMachineForm :=
  {| edit_name := name machine; edit_status := status machine; edit_error := [] |}.

(** [save]: the record handed to [onSave] is
    [{ ...machine, name, status, lastUpdated: new Date() }]; [X] is whatever
    [onSave] acts on. *)
Definition save {X : Type} (onSave : Machine -> X -> X) (machine : Machine)
  (now : Date) (form : EditMachineForm) (x : X) : EditMachineForm * X :=
  if (length (trim (edit_name form)) <? 2)%nat then
    ({| edit_name := edit_name form;
        edit_status := edit_status form;
        edit_error := js "Name must be at least 2 characters" |},
     x)
  else
    (form,
     onSave {| id := id machine; name := edit_name form;
               status := edit_status form; lastUpdated := now |} x).

(** The card holds [editing]; it gives the form
    [onSave = m => { onUpdate(m); setEditing(false); }]. *)
Definition MachineCard_onSave (onUpdate : Machine -> State -> State) (m : Machine)
  (card : bool * State) : bool * State :=
  (false, onUpdate m (snd card)).

(** ** Uniqueness of ids

    No two records of the collection share an id, and a buffered record
    carries an id that no record of the collection has. *)
Definition ids_unique (s : State) : Prop :=
  NoDup (map id (machines s))
  /\ forall d, lastDeleted s = Some d -> ~ In (id (machine d)) (map id (machines s)).

(** ** [src/data/seedMachines.ts]

    The ids come from [crypto.randomUUID()] and the timestamp from
    [new Date()] at module load; both are inputs here. *)
Definition seedMachines (uuid : nat -> list N) (now : Date) : list Machine :=
  [ {| id := uuid 0%nat; name := js "Cutter A"; status := Running; lastUpdated := now |};
    {| id := uuid 1%nat; name := js "Press B"; status := Idle; lastUpdated := now |};
    {| id := uuid 2%nat; name := js "Welder C"; status := Offline; lastUpdated := now |};
    {| id := uuid 3%nat; name := js "Lathe D"; status := Running; lastUpdated := now |};
    {| id := uuid 4%nat; name := js "Drill E"; status := Idle; lastUpdated := now |};
    {| id := uuid 5%nat; name := js "Robot F"; status := Running; lastUpdated := now |} ].

(** ** Sample data for the examples *)

Module Sample.

(** Ids standing for the random UUIDs: ["m0"], ["m1"], ... *)
Definition uuid (n : nat) : list N := js "m" ++ js (pretty n).

Definition seed : list Machine := seedMachines uuid 1700000000000.

(** A serializer to run the examples with; every property below is proved
    for an arbitrary [JSON.stringify]. *)
Definition stringify (ms : list Machine) : list N :=
  concat (map (fun m => id m ++ js ":" ++ name m ++ js ";") ms).

Definition initial : State :=
  {| machines := seed; lastDeleted := None; localStorage := ∅ |}.

(** Two records sharing the id ["m1"]. *)
Definition twin : Machine :=
  {| id := uuid 1%nat; name := js "Press B2"; status := Running;
     lastUpdated := 1700000000001 |}.

Definition with_twins : State :=
  {| machines := seed ++ [twin]; lastDeleted := None; localStorage := ∅ |}.

(** A buffer left by a deletion at index 5, over a collection that has
    shrunk to two records since. *)
Definition undo_shrunk : State :=
  {| machines := firstn 2 seed;
     lastDeleted := Some {| machine := twin; index := 5 |};
     localStorage := ∅ |}.

(** [toLowerCase] on the ASCII letters, other code units kept. *)
Definition toLowerCase (s : list N) : list N :=
  map (fun c => if ((65 <=? c) && (c <=? 90))%N then (c + 32)%N else c) s.

(** A date recognizer that knows the epoch in its ISO form only. *)
Definition date_parse (text : list N) : option Date :=
  if bool_decide (text = js "1970-01-01T00:00:00.000Z") then Some 0 else None.

(** A text parser that knows one document only and throws on the rest; the
    empty text is among the rest, as it is for [JSON.parse]. *)
Definition document : list N :=
  js "[" ++ [34%N] ++ js "1970-01-01T00:00:00.000Z" ++ [34%N] ++ js ","
    ++ [34%N] ++ js "Press B" ++ [34%N] ++ js "]".

Definition parse_text (text : list N) : option jsval :=
  if bool_decide (text = document)
  then Some (JArray [JString (js "1970-01-01T00:00:00.000Z"); JString (js "Press B")])
  else None.

(** A serializer of values for the examples: the literal [null] for
    [JNull], the text [value] for the rest. *)
Definition stringify_val (v : jsval) : list N :=
  match v with
  | JNull => js "null"
  | _ => js "value"
  end.

(** No collection can be read back in the examples. *)
Definition parse_machines (text : list N) : option (list Machine) := None.

(** A reader that knows the serialized seed only. *)
Definition parse_seed (text : list N) : option (list Machine) :=
  if bool_decide (text = stringify seed) then Some seed else None.

(** A record with an id of its own. *)
Definition newcomer : Machine :=
  {| id := uuid 6%nat; name := js "Saw G"; status := Idle;
     lastUpdated := 1700000000003 |}.

End Sample.

(* ===================================================================== *)
(** * Part II: properties                                                  *)
(* ===================================================================== *)

(** ** Facts about the array methods *)

Section ArrayFacts.
Context {A : Type}.
Implicit Types (p : A -> bool) (l : list A).

Lemma findIndex_from_cases p l (k : Z) :
  (findIndex_from p k l = -1 /\ Forall (fun x => p x = false) l)
  \/ exists l1 x l2,
       l = l1 ++ x :: l2 /\ p x = true
       /\ Forall (fun y => p y = false) l1
       /\ findIndex_from p k l = k + Z.of_nat (length l1).
Proof.
  revert k. induction l as [|x l IH]; intros k; simpl.
  - left. split; [reflexivity | constructor].
  - destruct (p x) eqn:Hpx.
    + right. exists [], x, l. simpl. repeat split; auto. lia.
    + destruct (IH (k + 1)) as [[Hr Hall] | (l1 & y & l2 & -> & Hy & Hpre & Hr)].
      * left. split; auto.
      * right. exists (x :: l1), y, l2. simpl. repeat split; auto. lia.
Qed.

Lemma findIndex_cases p l :
  (findIndex p l = -1 /\ Forall (fun x => p x = false) l)
  \/ exists l1 x l2,
       l = l1 ++ x :: l2 /\ p x = true
       /\ Forall (fun y => p y = false) l1
       /\ findIndex p l = Z.of_nat (length l1).
Proof.
  unfold findIndex.
  destruct (findIndex_from_cases p l 0) as [H | (l1 & x & l2 & H1 & H2 & H3 & H4)].
  - left. exact H.
  - right. exists l1, x, l2. rewrite H4. repeat split; auto.
Qed.

Lemma filter_negb_all_false p l :
  Forall (fun x => p x = false) l -> List.filter (fun x => negb (p x)) l = l.
Proof.
  induction 1 as [|x l Hx _ IH]; simpl; [reflexivity|].
  rewrite Hx. simpl. now rewrite IH.
Qed.

Lemma filter_all_false p l :
  Forall (fun x => p x = false) l -> List.filter p l = [].
Proof.
  induction 1 as [|x l Hx _ IH]; simpl; [reflexivity|]. now rewrite Hx.
Qed.

Lemma filter_nil_all_false p l :
  List.filter p l = [] -> Forall (fun x => p x = false) l.
Proof.
  induction l as [|x l IH]; simpl; [constructor|].
  destruct (p x) eqn:Hx; [discriminate|]. intros H. constructor; auto.
Qed.

Lemma filter_negb_length p l :
  (length (List.filter (fun x => negb (p x)) l)
   + length (List.filter p l) = length l)%nat.
Proof.
  induction l as [|x l IH]; simpl; [reflexivity|].
  destruct (p x); simpl; lia.
Qed.

(** Inserting one item with [splice] at a start inside the array. *)
Lemma splice_insert_at l (k : nat) (x : A) :
  (k <= length l)%nat ->
  splice l (Z.of_nat k) 0 [x] = take k l ++ x :: drop k l.
Proof.
  intros Hk. unfold splice, splice_actualStart, splice_actualDeleteCount.
  assert ((Z.of_nat k <? 0) = false) as -> by lia.
  rewrite Z.min_l by lia.
  replace (Z.min (Z.max 0 0) (Z.of_nat (length l) - Z.of_nat k)) with 0 by lia.
  rewrite Z.add_0_r, Nat2Z.id. reflexivity.
Qed.

(** Inserting one item with [splice] at a start beyond the end appends. *)
Lemma splice_insert_beyond l (start : Z) (x : A) :
  Z.of_nat (length l) <= start ->
  splice l start 0 [x] = l ++ [x].
Proof.
  intros Hk. unfold splice, splice_actualStart, splice_actualDeleteCount.
  assert ((start <? 0) = false) as -> by lia.
  rewrite Z.min_r by lia.
  replace (Z.min (Z.max 0 0) (Z.of_nat (length l) - Z.of_nat (length l))) with 0 by lia.
  rewrite Z.add_0_r, Nat2Z.id.
  rewrite firstn_all, skipn_all. reflexivity.
Qed.

End ArrayFacts.

(** ** Facts about the string methods *)

Lemma startsWith_spec (s search : list N) :
  startsWith s search = true <-> exists suf, s = search ++ suf.
Proof.
  revert s. induction search as [|c search IH]; intros s; simpl.
  - split; [intros _; now exists s | reflexivity].
  - destruct s as [|d s]; simpl.
    + split; [discriminate | intros [suf Hs]; discriminate Hs].
    + rewrite andb_true_iff, N.eqb_eq, IH. split.
      * intros [-> [suf ->]]. now exists suf.
      * intros [suf [= -> ->]]. split; [reflexivity | now exists suf].
Qed.

Lemma includes_spec (s search : list N) :
  includes s search = true <-> exists pre suf, s = pre ++ search ++ suf.
Proof.
  induction s as [|c s IH].
  - cbn [includes]. rewrite orb_false_r, startsWith_spec. split.
    + intros [suf Hs]. now exists [], suf.
    + intros (pre & suf & Hs). destruct pre; [now exists suf|discriminate Hs].
  - cbn [includes]. rewrite orb_true_iff, startsWith_spec, IH. split.
    + intros [[suf Hs] | (pre & suf & Hs)].
      * now exists [], suf.
      * exists (c :: pre), suf. simpl. now rewrite Hs.
    + intros (pre & suf & Hs). destruct pre as [|d pre]; simpl in Hs.
      * left. now exists suf.
      * right. injection Hs as _ Hs. now exists pre, suf.
Qed.

Lemma includes_empty (s : list N) : includes s [] = true.
Proof. apply includes_spec. now exists [], s. Qed.

Lemma filter_sublist {A : Type} (p : A -> bool) (l : list A) :
  sublist (List.filter p l) l.
Proof.
  induction l as [|x l IH]; simpl; [constructor|].
  destruct (p x); now constructor.
Qed.

(** ** The view projection *)

Section ProjectionFacts.
Variable toLowerCase : list N -> list N.
Hypothesis toLowerCase_empty : toLowerCase [] = [].

(** C3.  A record is in the projection exactly when it is in the collection,
    the status filter is [ALL] or equals its status, and the lower-cased
    search text occurs in its lower-cased name; the projection is a
    subsequence of the collection, so relative order is kept; and with the
    empty search text every record that passes the status filter is in. *)
Theorem filteredMachines_spec (machines : list Machine)
  (statusFilter : StatusFilterValue) (searchQuery : list N) :
  (forall m,
     In m (filteredMachines toLowerCase machines statusFilter searchQuery)
     <-> In m machines
         /\ (statusFilter = ALL \/ Status (status m) = statusFilter)
         /\ exists pre suf,
              toLowerCase (name m) = pre ++ toLowerCase searchQuery ++ suf)
  /\ sublist (filteredMachines toLowerCase machines statusFilter searchQuery) machines
  /\ (forall m,
        In m (filteredMachines toLowerCase machines statusFilter [])
        <-> In m machines /\ (statusFilter = ALL \/ Status (status m) = statusFilter)).
Proof.
  assert (forall q m,
     In m (filteredMachines toLowerCase machines statusFilter q)
     <-> In m machines
         /\ (statusFilter = ALL \/ Status (status m) = statusFilter)
         /\ exists pre suf, toLowerCase (name m) = pre ++ toLowerCase q ++ suf) as Hiff.
  { intros q m. unfold filteredMachines.
    rewrite filter_In, andb_true_iff, orb_true_iff, !bool_decide_eq_true, includes_spec.
    reflexivity. }
  split; [apply Hiff|]. split; [apply filter_sublist|].
  intros m. rewrite Hiff, toLowerCase_empty. split.
  - intros (Hm & Hs & _). now split.
  - intros [Hm Hs]. split; [exact Hm|]. split; [exact Hs|].
    now exists [], (toLowerCase (name m)).
Qed.

End ProjectionFacts.

Lemma filteredMachines_spec_witness :
  In {| id := Sample.uuid 0; name := js "Cutter A"; status := Running;
        lastUpdated := 1700000000000 |}
     (filteredMachines Sample.toLowerCase Sample.seed ALL (js "cuTT"))
  /\ sublist (filteredMachines Sample.toLowerCase Sample.seed (Status Idle) [])
             Sample.seed.
Proof.
  pose proof (filteredMachines_spec Sample.toLowerCase eq_refl
                Sample.seed ALL (js "cuTT")) as [Hin _].
  pose proof (filteredMachines_spec Sample.toLowerCase eq_refl
                Sample.seed (Status Idle) []) as (_ & Hsub & _).
  split; [|exact Hsub].
  apply Hin. split; [now left|]. split; [now left|].
  exists [], (js "er a"). reflexivity.
Defined.

(** The projection on the seed collection. *)
Example project_all_empty :
  filteredMachines Sample.toLowerCase Sample.seed ALL [] = Sample.seed.
Proof. reflexivity. Qed.

Example project_running :
  map name (filteredMachines Sample.toLowerCase Sample.seed (Status Running) [])
  = [js "Cutter A"; js "Lathe D"; js "Robot F"].
Proof. reflexivity. Qed.

Example project_cutt_zzz :
  map name (filteredMachines Sample.toLowerCase Sample.seed ALL (js "cutt"))
  = [js "Cutter A"]
  /\ filteredMachines Sample.toLowerCase Sample.seed ALL (js "zzz") = [].
Proof. split; reflexivity. Qed.

(** ** The collection store *)

Section StoreFacts.
Variable JSON_stringify : list Machine -> list N.
Implicit Types (s : State) (i : list N) (m u : Machine) (ms : list Machine).


Lemma absent_all_false i ms :
  ~ In i (map id ms) ->
  Forall (fun m => bool_decide (id m = i) = false) ms.
Proof.
  intros Hn. apply Forall_forall. intros m Hm.
  apply bool_decide_eq_false. intros <-.
  apply Hn, in_map_iff. exists m. split; [reflexivity|].
  now apply list_elem_of_In.
Qed.

Lemma all_false_absent i ms :
  Forall (fun m => bool_decide (id m = i) = false) ms ->
  ~ In i (map id ms).
Proof.
  intros Hall Hin. apply in_map_iff in Hin as (m & Hid & Hm).
  rewrite Forall_forall in Hall.
  apply list_elem_of_In, Hall, bool_decide_eq_false in Hm. contradiction.
Qed.

Lemma present_occurs i ms : In i (map id ms) <-> (1 <= occurrences i ms)%nat.
Proof.
  unfold occurrences. split.
  - intros Hin. apply in_map_iff in Hin as (m & Hid & Hm).
    assert (In m (List.filter (fun m => bool_decide (id m = i)) ms)) as Hf.
    { apply filter_In. split; [exact Hm|]. now apply bool_decide_eq_true. }
    destruct (List.filter _ ms); [destruct Hf | simpl; lia].
  - intros Hlen.
    destruct (List.filter (fun m => bool_decide (id m = i)) ms) as [|m l] eqn:Hf;
      [simpl in Hlen; lia|].
    assert (In m (List.filter (fun m => bool_decide (id m = i)) ms)) as Hm
      by (rewrite Hf; now left).
    apply filter_In in Hm as [Hm Hid]. apply bool_decide_eq_true in Hid.
    apply in_map_iff. now exists m.
Qed.

(** The shape of a collection around the first record carrying [i]. *)
Lemma first_occurrence i ms :
  In i (map id ms) ->
  exists l1 m l2,
    ms = l1 ++ m :: l2 /\ id m = i /\ ~ In i (map id l1)
    /\ findIndex (fun m => bool_decide (id m = i)) ms = Z.of_nat (length l1).
Proof.
  intros Hin.
  destruct (findIndex_cases (fun m => bool_decide (id m = i)) ms)
    as [[_ Hall] | (l1 & m & l2 & Hms & Hm & Hpre & Hidx)].
  - now apply all_false_absent in Hall.
  - exists l1, m, l2. apply bool_decide_eq_true in Hm.
    repeat split; auto. now apply all_false_absent.
Qed.

(** [deleteMachine] when the id is absent: the updater returns [prev]. *)
Lemma deleteMachine_absent i s :
  ~ In i (map id (machines s)) -> deleteMachine JSON_stringify i s = s.
Proof.
  intros Hn. unfold deleteMachine.
  destruct (findIndex_cases (fun m => bool_decide (id m = i)) (machines s))
    as [[Hidx _] | (l1 & m & l2 & Hms & Hm & _ & _)].
  - now rewrite Hidx.
  - exfalso. apply Hn. rewrite Hms, map_app, in_app_iff. right. left.
    now apply bool_decide_eq_true in Hm.
Qed.

(** [deleteMachine] when the id is present, around its first occurrence. *)
Lemma deleteMachine_present i s l1 m l2 :
  machines s = l1 ++ m :: l2 -> id m = i -> ~ In i (map id l1) ->
  deleteMachine JSON_stringify i s =
  {| machines := l1 ++ List.filter (fun m => negb (bool_decide (id m = i))) l2;
     lastDeleted := Some {| machine := m; index := Z.of_nat (length l1) |};
     localStorage :=
       <[key := JSON_stringify
                  (l1 ++ List.filter (fun m => negb (bool_decide (id m = i))) l2)]>
         (localStorage s) |}.
Proof.
  intros Hms Hm Hl1. unfold deleteMachine.
  assert (findIndex (fun m => bool_decide (id m = i)) (machines s)
          = Z.of_nat (length l1)) as Hidx.
  { destruct (findIndex_cases (fun m => bool_decide (id m = i)) (machines s))
      as [[_ Hall] | (k1 & x & k2 & Hms' & Hx & Hpre & Hidx)].
    - exfalso. rewrite Hms in Hall. apply Forall_app in Hall as [_ Hall].
      apply Forall_cons in Hall as [Hall _].
      apply bool_decide_eq_false in Hall. contradiction.
    - rewrite Hidx. f_equal.
      apply absent_all_false in Hl1.
      rewrite Hms in Hms'.
      destruct (Nat.lt_total (length l1) (length k1)) as [Hlt | [Heq | Hgt]].
      + exfalso.
        assert ((l1 ++ m :: l2) !! length l1 = Some m) as Hl
          by (rewrite lookup_app_r, Nat.sub_diag by lia; reflexivity).
        rewrite Hms', lookup_app_l in Hl by lia.
        rewrite Forall_forall in Hpre.
        apply list_elem_of_lookup_2, Hpre, bool_decide_eq_false in Hl.
        contradiction.
      + now symmetry.
      + exfalso.
        assert ((k1 ++ x :: k2) !! length k1 = Some x) as Hl
          by (rewrite lookup_app_r, Nat.sub_diag by lia; reflexivity).
        rewrite <- Hms', lookup_app_l in Hl by lia.
        rewrite Forall_forall in Hl1.
        apply list_elem_of_lookup_2, Hl1 in Hl. congruence. }
  rewrite Hidx. assert ((Z.of_nat (length l1) =? -1) = false) as -> by lia.
  rewrite Nat2Z.id, Hms, lookup_app_r, Nat.sub_diag by lia. simpl.
  unfold setMachines, setLastDeleted, useLocalStorage_effect. simpl.
  rewrite List.filter_app. simpl.
  rewrite (filter_negb_all_false _ l1) by now apply absent_all_false.
  rewrite bool_decide_eq_true_2 by exact Hm. simpl. reflexivity.
Qed.

Lemma filter_out_absent i ms :
  ~ In i (map id (List.filter (fun m => negb (bool_decide (id m = i))) ms)).
Proof.
  intros Hin. apply in_map_iff in Hin as (m & Hid & Hm).
  apply filter_In in Hm as [_ Hm]. apply negb_true_iff, bool_decide_eq_false in Hm.
  contradiction.
Qed.

(** [undoDelete] with a buffered index inside the current collection. *)
Lemma undoDelete_inside s d (k : nat) :
  lastDeleted s = Some d -> index d = Z.of_nat k -> (k <= length (machines s))%nat ->
  machines (undoDelete JSON_stringify s)
  = take k (machines s) ++ machine d :: drop k (machines s)
  /\ lastDeleted (undoDelete JSON_stringify s) = None.
Proof.
  intros Hd Hk Hle. unfold undoDelete. rewrite Hd. simpl.
  rewrite Hk, splice_insert_at by exact Hle. split; reflexivity.
Qed.

Lemma map_replace_absent u ms :
  ~ In (id u) (map id ms) ->
  map (fun m => if bool_decide (id m = id u) then u else m) ms = ms.
Proof.
  intros Hu. apply absent_all_false in Hu.
  induction Hu as [|m ms Hm _ IH]; simpl; [reflexivity|]. now rewrite Hm, IH.
Qed.

(** The buffered index written by [deleteMachine] is a position of the
    collection it was taken from. *)
Lemma deleteMachine_index_range i s d :
  lastDeleted (deleteMachine JSON_stringify i s) = Some d ->
  lastDeleted s = Some d
  \/ (0 <= index d < Z.of_nat (length (machines s))
      /\ machines s !! Z.to_nat (index d) = Some (machine d)).
Proof.
  destruct (decide (i ∈ map id (machines s))) as [Hin | Hn];
    rewrite list_elem_of_In in *.
  - destruct (first_occurrence i (machines s) Hin) as (l1 & m & l2 & Hms & Hm & Hl1 & _).
    rewrite (deleteMachine_present i s l1 m l2 Hms Hm Hl1). simpl.
    intros [= <-]. right. simpl. rewrite Hms, length_app. simpl. split; [lia|].
    rewrite Nat2Z.id, lookup_app_r, Nat.sub_diag by lia. reflexivity.
  - rewrite deleteMachine_absent by exact Hn. now left.
Qed.

(** A collection in which one record only carries the id [i]. *)
Lemma once_decomposition i ms :
  occurrences i ms = 1%nat ->
  exists l1 m l2,
    ms = l1 ++ m :: l2 /\ id m = i
    /\ ~ In i (map id l1) /\ ~ In i (map id l2).
Proof.
  intros Hocc.
  assert (In i (map id ms)) as Hin by (apply present_occurs; lia).
  destruct (first_occurrence i ms Hin) as (l1 & m & l2 & Hms & Hm & Hl1 & _).
  exists l1, m, l2. repeat split; auto.
  apply all_false_absent, filter_nil_all_false.
  unfold occurrences in Hocc. rewrite Hms, List.filter_app in Hocc. simpl in Hocc.
  rewrite bool_decide_eq_true_2, length_app in Hocc by exact Hm. simpl in Hocc.
  destruct (List.filter _ l2); [reflexivity | simpl in Hocc; lia].
Qed.

(** Deleting a record whose id no other record carries, then undoing. *)
Lemma delete_undo_around i s l1 m l2 :
  machines s = l1 ++ m :: l2 -> id m = i ->
  ~ In i (map id l1) -> ~ In i (map id l2) ->
  machines (undoDelete JSON_stringify (deleteMachine JSON_stringify i s))
  = machines s
  /\ lastDeleted (undoDelete JSON_stringify (deleteMachine JSON_stringify i s))
     = None.
Proof.
  intros Hms Hm Hl1 Hl2.
  rewrite (deleteMachine_present i s l1 m l2 Hms Hm Hl1).
  rewrite (filter_negb_all_false _ l2) by now apply absent_all_false.
  unfold undoDelete. simpl.
  rewrite splice_insert_at by (rewrite length_app; lia).
  rewrite take_app_length, drop_app_length, Hms. split; reflexivity.
Qed.

(** C1, as amended.  When exactly one record of the collection carries the
    id, [deleteMachine] followed at once by [undoDelete] gives back the
    collection it started from, in content and in order, and leaves the undo
    buffer empty. *)
Theorem delete_undo_roundtrip i s :
  occurrences i (machines s) = 1%nat ->
  machines (undoDelete JSON_stringify (deleteMachine JSON_stringify i s))
  = machines s
  /\ lastDeleted (undoDelete JSON_stringify (deleteMachine JSON_stringify i s))
     = None.
Proof.
  intros Hocc.
  destruct (once_decomposition i (machines s) Hocc)
    as (l1 & m & l2 & Hms & Hm & Hl1 & Hl2).
  pose proof (deleteMachine_present i s l1 m l2 Hms Hm Hl1) as Hdel.
  assert (lastDeleted (deleteMachine JSON_stringify i s)
          = Some {| machine := m; index := Z.of_nat (length l1) |}) as Hbuf
    by now rewrite Hdel.
  assert (machines (deleteMachine JSON_stringify i s) = l1 ++ l2) as Hrest.
  { rewrite Hdel. simpl. f_equal.
    apply filter_negb_all_false. now apply absent_all_false. }
  destruct (undoDelete_inside (deleteMachine JSON_stringify i s) _ (length l1)
              Hbuf eq_refl) as [Hback Hnone].
  { rewrite Hrest, length_app. lia. }
  split; [|exact Hnone].
  now rewrite Hback, Hrest, take_app_length, drop_app_length, Hms.
Qed.

(** C2.  With a buffered pair whose index is not negative, [undoDelete]
    puts the buffered record at the buffered index, lowered to the current
    length when the collection is shorter than that, and clears the buffer;
    with an empty buffer it changes nothing at all. *)
Theorem undoDelete_spec s :
  (forall d, lastDeleted s = Some d -> 0 <= index d ->
     let k := Nat.min (Z.to_nat (index d)) (length (machines s)) in
     machines (undoDelete JSON_stringify s)
     = take k (machines s) ++ machine d :: drop k (machines s)
     /\ machines (undoDelete JSON_stringify s) !! k = Some (machine d)
     /\ length (machines (undoDelete JSON_stringify s)) = S (length (machines s))
     /\ lastDeleted (undoDelete JSON_stringify s) = None)
  /\ (lastDeleted s = None -> undoDelete JSON_stringify s = s).
Proof.
  split.
  - intros d Hd Hnn k.
    assert (machines (undoDelete JSON_stringify s)
            = take k (machines s) ++ machine d :: drop k (machines s)
            /\ lastDeleted (undoDelete JSON_stringify s) = None) as [Hm Hb].
    { destruct (Z_le_gt_dec (index d) (Z.of_nat (length (machines s)))) as [Hle | Hgt].
      - assert (k = Z.to_nat (index d)) as Hk by (subst k; lia).
        apply undoDelete_inside; [exact Hd | lia | lia].
      - assert (k = length (machines s)) as Hk by (subst k; lia).
        unfold undoDelete. rewrite Hd. simpl.
        rewrite splice_insert_beyond by lia.
        rewrite Hk, firstn_all, skipn_all. split; reflexivity. }
    repeat split; auto.
    + rewrite Hm. rewrite lookup_app_r by (rewrite length_take; lia).
      rewrite length_take.
      replace (k - k `min` length (machines s))%nat with 0%nat by lia.
      reflexivity.
    + rewrite Hm, length_app. simpl. rewrite length_take, length_drop. lia.
  - intros Hd. unfold undoDelete. now rewrite Hd.
Qed.

(** C7.  For an id carried by no record of the collection, [deleteMachine]
    returns the state as it was, undo buffer and store included, and
    [updateMachine] with a record of such an id leaves the collection and the
    undo buffer as they were; both are total, nothing is raised. *)
Theorem absent_id_noop i u s :
  ~ In i (map id (machines s)) ->
  ~ In (id u) (map id (machines s)) ->
  deleteMachine JSON_stringify i s = s
  /\ machines (updateMachine JSON_stringify u s) = machines s
  /\ lastDeleted (updateMachine JSON_stringify u s) = lastDeleted s.
Proof.
  intros Hi Hu. split; [now apply deleteMachine_absent|]. split; [|reflexivity].
  unfold updateMachine. simpl. now apply map_replace_absent.
Qed.

(** C8.  [updateMachine] keeps the length of the collection and the
    sequence of ids in it, hence the set of ids, and at every position the new
    collection holds the given record where the id matched and the old record
    elsewhere. *)
Theorem updateMachine_preserves u s :
  length (machines (updateMachine JSON_stringify u s)) = length (machines s)
  /\ map id (machines (updateMachine JSON_stringify u s)) = map id (machines s)
  /\ forall k : nat,
       machines (updateMachine JSON_stringify u s) !! k
       = (fun m => if bool_decide (id m = id u) then u else m) <$> machines s !! k.
Proof.
  unfold updateMachine. simpl. split; [apply length_map|]. split.
  - rewrite map_map. apply map_ext. intros m.
    destruct (bool_decide_reflect (id m = id u)); congruence.
  - intros k. apply list_lookup_fmap.
Qed.

Lemma occurrences_filter_other i j ms :
  i <> j ->
  occurrences j (List.filter (fun m => negb (bool_decide (id m = i))) ms)
  = occurrences j ms.
Proof.
  intros Hij. unfold occurrences. induction ms as [|m ms IH]; simpl; [reflexivity|].
  destruct (bool_decide_reflect (id m = i)) as [Hi | Hi]; simpl.
  - rewrite bool_decide_eq_false_2 by congruence. exact IH.
  - destruct (bool_decide (id m = j)); simpl; now rewrite IH.
Qed.

Lemma occurrences_filter_same i ms :
  occurrences i (List.filter (fun m => negb (bool_decide (id m = i))) ms) = 0%nat.
Proof.
  unfold occurrences. induction ms as [|m ms IH]; simpl; [reflexivity|].
  destruct (bool_decide_reflect (id m = i)) as [Hi | Hi]; simpl; [exact IH|].
  rewrite bool_decide_eq_false_2 by exact Hi. exact IH.
Qed.

Lemma deleteMachine_machines i s :
  machines (deleteMachine JSON_stringify i s)
  = List.filter (fun m => negb (bool_decide (id m = i))) (machines s).
Proof.
  destruct (decide (i ∈ map id (machines s))) as [Hin | Hn];
    rewrite list_elem_of_In in *.
  - destruct (first_occurrence i (machines s) Hin) as (l1 & m & l2 & Hms & Hm & Hl1 & _).
    rewrite (deleteMachine_present i s l1 m l2 Hms Hm Hl1). simpl.
    rewrite Hms, List.filter_app. simpl.
    rewrite (filter_negb_all_false _ l1) by now apply absent_all_false.
    now rewrite bool_decide_eq_true_2 by exact Hm.
  - rewrite deleteMachine_absent by exact Hn.
    symmetry. apply filter_negb_all_false. now apply absent_all_false.
Qed.

(** C9.  With two different ids both present, deleting the first and then
    the second leaves in the undo buffer a record of the second id only;
    the undo that follows puts that record back, no record of the first id
    comes back, the buffer is empty and a further undo changes nothing.  When
    the second id was carried by one record only, the collection after the
    undo is the one the first deletion alone had left. *)
Theorem second_delete_overwrites i1 i2 s :
  i1 <> i2 ->
  In i1 (map id (machines s)) ->
  In i2 (map id (machines s)) ->
  let s1 := deleteMachine JSON_stringify i1 s in
  let s2 := deleteMachine JSON_stringify i2 s1 in
  let s3 := undoDelete JSON_stringify s2 in
  (exists d, lastDeleted s2 = Some d
             /\ id (machine d) = i2
             /\ In (machine d) (machines s)
             /\ ~ In (machine d) (machines s2)
             /\ In (machine d) (machines s3))
  /\ ~ In i1 (map id (machines s3))
  /\ lastDeleted s3 = None
  /\ undoDelete JSON_stringify s3 = s3
  /\ (occurrences i2 (machines s) = 1%nat -> machines s3 = machines s1).
Proof.
  intros Hne H1 H2 s1 s2 s3.
  assert (machines s1
          = List.filter (fun m => negb (bool_decide (id m = i1))) (machines s))
    as Hs1 by apply deleteMachine_machines.
  assert (In i2 (map id (machines s1))) as H2'.
  { apply present_occurs. rewrite Hs1, occurrences_filter_other by exact Hne.
    now apply present_occurs. }
  destruct (first_occurrence i2 (machines s1) H2') as (l1 & m & l2 & Hms & Hm & Hl1 & _).
  pose proof (deleteMachine_present i2 s1 l1 m l2 Hms Hm Hl1) as Hs2.
  fold s2 in Hs2.
  assert (machines s3
          = l1 ++ m :: List.filter (fun m => negb (bool_decide (id m = i2))) l2
          /\ lastDeleted s3 = None) as [Hs3 Hb3].
  { subst s3. rewrite Hs2. unfold undoDelete. simpl.
    rewrite splice_insert_at by (rewrite length_app; lia).
    rewrite take_app_length, drop_app_length. split; reflexivity. }
  assert (~ In i1 (map id (machines s1))) as Hno1
    by (rewrite Hs1; apply filter_out_absent).
  split; [|split; [|split; [|split]]].
  - exists {| machine := m; index := Z.of_nat (length l1) |}. simpl.
    split; [now rewrite Hs2|]. split; [exact Hm|]. split; [|split].
    + assert (In m (machines s1)) as Hin
        by (rewrite Hms; apply in_app_iff; right; now left).
      rewrite Hs1 in Hin. now apply filter_In in Hin.
    + rewrite Hs2. simpl. intros Hin.
      apply (in_map id) in Hin. rewrite Hm, map_app, in_app_iff in Hin.
      destruct Hin as [Hin | Hin]; [contradiction|].
      now apply filter_out_absent in Hin.
    + rewrite Hs3. apply in_app_iff. right. now left.
  - rewrite Hs3. intros Hin. apply Hno1. rewrite Hms.
    rewrite map_app, in_app_iff in *. simpl in *.
    destruct Hin as [Hin | [Hin | Hin]]; auto.
    right. right. apply in_map_iff in Hin as (x & Hx & Hin).
    apply filter_In in Hin as [Hin _]. apply in_map_iff. now exists x.
  - exact Hb3.
  - unfold undoDelete at 1. now rewrite Hb3.
  - intros Hocc. subst s3 s2.
    destruct (once_decomposition i2 (machines s1))
      as (k1 & x & k2 & Hk & Hx & Hk1 & Hk2).
    { rewrite Hs1, occurrences_filter_other by exact Hne. exact Hocc. }
    now apply (delete_undo_around i2 s1 k1 x k2).
Qed.

(** C10.  In a collection where more than one record carries the id,
    [deleteMachine] removes all of them, so no record of that id is left
    and the collection is shorter by the number of such records, while the
    undo buffer holds the first of them only, with its index. *)
Theorem deleteMachine_duplicates i s :
  (1 < occurrences i (machines s))%nat ->
  let s' := deleteMachine JSON_stringify i s in
  ~ In i (map id (machines s'))
  /\ (forall m, In m (machines s') <-> In m (machines s) /\ id m <> i)
  /\ (length (machines s') + occurrences i (machines s) = length (machines s))%nat
  /\ exists m (k : nat),
       lastDeleted s' = Some {| machine := m; index := Z.of_nat k |}
       /\ machines s !! k = Some m
       /\ id m = i
       /\ ~ In i (map id (take k (machines s))).
Proof.
  intros Hocc s'.
  assert (machines s' = List.filter (fun m => negb (bool_decide (id m = i))) (machines s))
    as Hs' by apply deleteMachine_machines.
  split; [|split; [|split]].
  - rewrite Hs'. apply filter_out_absent.
  - intros m. rewrite Hs', filter_In, negb_true_iff, bool_decide_eq_false. reflexivity.
  - rewrite Hs'. apply filter_negb_length.
  - assert (In i (map id (machines s))) as Hin by (apply present_occurs; lia).
    destruct (first_occurrence i (machines s) Hin) as (l1 & m & l2 & Hms & Hm & Hl1 & _).
    exists m, (length l1). subst s'.
    rewrite (deleteMachine_present i s l1 m l2 Hms Hm Hl1). simpl.
    split; [reflexivity|]. split; [|split; [exact Hm|]].
    + rewrite Hms, lookup_app_r, Nat.sub_diag by lia. reflexivity.
    + now rewrite Hms, take_app_length.
Qed.

End StoreFacts.

(** *** The store on the sample data *)

(** The scenario of the seed collection: deleting "Press B" leaves five
    records, none of them "Press B"; the undo brings back six, with
    "Press B" at index 1 again. *)
Example seed_delete_undo :
  let s1 := deleteMachine Sample.stringify (Sample.uuid 1) Sample.initial in
  let s2 := undoDelete Sample.stringify s1 in
  length (machines s1) = 5%nat
  /\ ~ In (js "Press B") (map name (machines s1))
  /\ length (machines s2) = 6%nat
  /\ name <$> machines s2 !! 1%nat = Some (js "Press B")
  /\ machines s2 = machines Sample.initial.
Proof.
  vm_compute. repeat split; try reflexivity.
  intros H. repeat (destruct H as [H | H]; [discriminate H|]). exact H.
Qed.

Lemma delete_undo_roundtrip_witness :
  machines (undoDelete Sample.stringify
              (deleteMachine Sample.stringify (Sample.uuid 1) Sample.initial))
  = machines Sample.initial
  /\ lastDeleted (undoDelete Sample.stringify
                    (deleteMachine Sample.stringify (Sample.uuid 1) Sample.initial))
     = None.
Proof.
  apply (delete_undo_roundtrip Sample.stringify (Sample.uuid 1) Sample.initial).
  vm_compute. reflexivity.
Defined.

(** C1 as stated fails once two records share the id: both are removed and
    the undo brings back the first only. *)
Lemma delete_undo_roundtrip_duplicates :
  In (Sample.uuid 1) (map id (machines Sample.with_twins))
  /\ machines (undoDelete Sample.stringify
                 (deleteMachine Sample.stringify (Sample.uuid 1) Sample.with_twins))
     <> machines Sample.with_twins.
Proof.
  split.
  - right. left. reflexivity.
  - intros H. apply (f_equal length) in H. vm_compute in H. discriminate H.
Qed.

Lemma undoDelete_spec_witness :
  (machines (undoDelete Sample.stringify Sample.undo_shrunk)
   = firstn 2 Sample.seed ++ [Sample.twin]
   /\ lastDeleted (undoDelete Sample.stringify Sample.undo_shrunk) = None)
  /\ undoDelete Sample.stringify Sample.initial = Sample.initial.
Proof.
  split.
  - destruct (proj1 (undoDelete_spec Sample.stringify Sample.undo_shrunk)
                _ eq_refl ltac:(simpl; lia)) as (Hm & _ & _ & Hb).
    split; [exact Hm | exact Hb].
  - apply (proj2 (undoDelete_spec Sample.stringify Sample.initial)). reflexivity.
Defined.

Lemma absent_id_noop_witness :
  deleteMachine Sample.stringify (js "nobody") Sample.initial = Sample.initial
  /\ machines (updateMachine Sample.stringify
                 {| id := js "nobody"; name := js "Ghost"; status := Idle;
                    lastUpdated := 0 |} Sample.initial)
     = machines Sample.initial
  /\ lastDeleted (updateMachine Sample.stringify
                    {| id := js "nobody"; name := js "Ghost"; status := Idle;
                       lastUpdated := 0 |} Sample.initial)
     = lastDeleted Sample.initial.
Proof.
  apply (absent_id_noop Sample.stringify (js "nobody")
           {| id := js "nobody"; name := js "Ghost"; status := Idle; lastUpdated := 0 |}
           Sample.initial);
    vm_compute; intros H;
    repeat (destruct H as [H | H]; [discriminate H|]); exact H.
Defined.

Lemma second_delete_overwrites_witness :
  let s1 := deleteMachine Sample.stringify (Sample.uuid 1) Sample.initial in
  let s3 := undoDelete Sample.stringify
              (deleteMachine Sample.stringify (Sample.uuid 3) s1) in
  ~ In (Sample.uuid 1) (map id (machines s3))
  /\ lastDeleted s3 = None
  /\ machines s3 = machines s1.
Proof.
  destruct (second_delete_overwrites Sample.stringify
              (Sample.uuid 1) (Sample.uuid 3) Sample.initial)
    as (_ & Hgone & Hbuf & _ & Hsame).
  - intros H. vm_compute in H. discriminate H.
  - right. left. reflexivity.
  - do 3 right. left. reflexivity.
  - split; [exact Hgone|]. split; [exact Hbuf|]. apply Hsame. reflexivity.
Defined.

Lemma deleteMachine_duplicates_witness :
  let s' := deleteMachine Sample.stringify (Sample.uuid 1) Sample.with_twins in
  ~ In (Sample.uuid 1) (map id (machines s'))
  /\ length (machines s') = 5%nat
  /\ machine <$> lastDeleted s' = Sample.seed !! 1%nat.
Proof.
  destruct (deleteMachine_duplicates Sample.stringify (Sample.uuid 1) Sample.with_twins)
    as (Hgone & _ & _ & _).
  - vm_compute. lia.
  - split; [exact Hgone|]. split; reflexivity.
Defined.

(** ** The add form *)

Section FormFacts.
Variable JSON_stringify : list Machine -> list N.

(** C4.  When the trimmed name has fewer than two code units, [submit]
    leaves the whole state of the store as it was, keeps what the form holds
    and sets a non-empty error message; when it has two or more, the record
    with the name as typed is appended to the collection and the error is
    cleared. *)
Theorem submit_validation (uuid : list N) (now : Date) (form : AddMachineForm)
  (s : State) :
  ((length (trim (form_name form)) < 2)%nat ->
     snd (submit (addMachine JSON_stringify) uuid now form s) = s
     /\ form_error (fst (submit (addMachine JSON_stringify) uuid now form s)) <> []
     /\ form_name (fst (submit (addMachine JSON_stringify) uuid now form s))
        = form_name form
     /\ form_status (fst (submit (addMachine JSON_stringify) uuid now form s))
        = form_status form)
  /\ ((2 <= length (trim (form_name form)))%nat ->
        machines (snd (submit (addMachine JSON_stringify) uuid now form s))
        = machines s ++ [ {| id := uuid; name := form_name form;
                             status := form_status form; lastUpdated := now |} ]
        /\ lastDeleted (snd (submit (addMachine JSON_stringify) uuid now form s))
           = lastDeleted s
        /\ form_error (fst (submit (addMachine JSON_stringify) uuid now form s)) = []).
Proof.
  unfold submit. split; intros Hlen.
  - apply Nat.ltb_lt in Hlen. rewrite Hlen. simpl.
    repeat split; auto; discriminate.
  - apply Nat.ltb_ge in Hlen. rewrite Hlen. simpl. repeat split; reflexivity.
Qed.

End FormFacts.

(** The store's [addMachine] itself checks nothing: the check is the form's. *)
Example addMachine_unchecked :
  map name (machines (addMachine Sample.stringify
                        {| id := js "x"; name := js "A"; status := Idle;
                           lastUpdated := 0 |} Sample.initial))
  = map name Sample.seed ++ [js "A"].
Proof. reflexivity. Qed.

Lemma submit_validation_witness :
  snd (submit (addMachine Sample.stringify) (js "m6") 1700000000002
         {| form_name := js "  A "; form_status := Idle; form_error := [] |}
         Sample.initial)
  = Sample.initial
  /\ map name (machines (snd (submit (addMachine Sample.stringify) (js "m6")
                                1700000000002
                                {| form_name := js "AB"; form_status := Idle;
                                   form_error := [] |}
                                Sample.initial)))
     = map name Sample.seed ++ [js "AB"].
Proof.
  split.
  - apply (proj1 (submit_validation Sample.stringify (js "m6") 1700000000002
                    {| form_name := js "  A "; form_status := Idle; form_error := [] |}
                    Sample.initial)).
    vm_compute. lia.
  - rewrite (proj1 (proj2 (submit_validation Sample.stringify (js "m6") 1700000000002
                    {| form_name := js "AB"; form_status := Idle; form_error := [] |}
                    Sample.initial) ltac:(vm_compute; lia))).
    rewrite map_app. reflexivity.
Defined.

(** ** Persistence *)

Section PersistenceFacts.
Variable JSON_stringify : list Machine -> list N.
Variable JSON_parse_machines : list N -> option (list Machine).
Variable seed : list Machine.

Lemma setMachines_persisted next s :
  persisted JSON_stringify (setMachines JSON_stringify next s).
Proof.
  unfold persisted, setMachines, useLocalStorage_effect. simpl.
  apply lookup_insert_eq.
Qed.

Lemma setLastDeleted_persisted d s :
  persisted JSON_stringify s -> persisted JSON_stringify (setLastDeleted d s).
Proof. intros H. exact H. Qed.

(** An operation either bails out with the state it got, or ends with the
    effect having written the new snapshot. *)
Lemma run_bails_or_persists op s :
  run JSON_stringify op s = s \/ persisted JSON_stringify (run JSON_stringify op s).
Proof.
  destruct op as [m | u | i |]; simpl.
  - right. apply setMachines_persisted.
  - right. apply setMachines_persisted.
  - unfold deleteMachine.
    destruct (findIndex _ (machines s) =? -1); [now left|].
    destruct (machines s !! _); [|now left].
    right. apply setMachines_persisted.
  - unfold undoDelete. destruct (lastDeleted s); [|now left].
    right. apply setLastDeleted_persisted, setMachines_persisted.
Qed.

(** Whatever the initialiser returned, the effect that runs at mount has
    written it under the key. *)
Lemma useMachines_mount_persisted storage s :
  useMachines_mount JSON_stringify JSON_parse_machines seed storage = Some s ->
  persisted JSON_stringify s.
Proof.
  unfold useMachines_mount, useLocalStorage_mount.
  destruct (useLocalStorage_init _ _ _ _ _ _) as [[value storage']|]; [|discriminate].
  intros [= <-]. unfold persisted, useLocalStorage_effect. simpl. apply lookup_insert_eq.
Qed.

(** In every state the hook can reach, a buffered index is not negative. *)
Lemma reachable_index_nonneg s d :
  reachable JSON_stringify JSON_parse_machines seed s ->
  lastDeleted s = Some d -> 0 <= index d.
Proof.
  intros Hr. revert d. induction Hr as [storage s Hm | op s _ IH]; intros d.
  - unfold useMachines_mount in Hm.
    destruct (useLocalStorage_mount _ _ _ _ _ _) as [[value storage']|];
      [|discriminate].
    injection Hm as <-. discriminate.
  - destruct op as [m | u | i |]; simpl.
    + apply IH.
    + apply IH.
    + intros Hd. apply deleteMachine_index_range in Hd as [Hd | [Hd _]];
        [now apply IH | lia].
    + unfold undoDelete. destruct (lastDeleted s) eqn:Hb; [discriminate|].
      rewrite Hb. discriminate.
Qed.

(** C5.  An operation that changes the collection ends with the
    serialization of the whole new collection written under the key, and in
    every state the hook can reach, from mounting on, the value under the key
    is the serialization of the collection in memory. *)
Theorem persistence_invariant :
  (forall op s,
     machines (run JSON_stringify op s) <> machines s ->
     persisted JSON_stringify (run JSON_stringify op s))
  /\ (forall s,
        reachable JSON_stringify JSON_parse_machines seed s ->
        persisted JSON_stringify s).
Proof.
  split.
  - intros op s Hchg.
    destruct (run_bails_or_persists op s) as [Heq | Hp]; [|exact Hp].
    rewrite Heq in Hchg. contradiction.
  - induction 1 as [storage s Hm | op s _ IH].
    + eapply useMachines_mount_persisted, Hm.
    + destruct (run_bails_or_persists op s) as [Heq | Hp]; [|exact Hp].
      now rewrite Heq.
Qed.

End PersistenceFacts.

Lemma persistence_invariant_witness :
  persisted Sample.stringify
    (run Sample.stringify (Add Sample.twin) Sample.initial)
  /\ persisted Sample.stringify
       (run Sample.stringify (Delete (Sample.uuid 1))
          {| machines := Sample.seed; lastDeleted := None;
             localStorage := <[key := Sample.stringify Sample.seed]>
                               (<[key := Sample.stringify Sample.seed]> ∅) |}).
Proof.
  split.
  - apply (proj1 (persistence_invariant Sample.stringify Sample.parse_machines
                    Sample.seed)).
    intros H. apply (f_equal length) in H. vm_compute in H. discriminate H.
  - apply (proj2 (persistence_invariant Sample.stringify Sample.parse_machines
                    Sample.seed)).
    apply reachable_run. apply (reachable_mount _ _ _ ∅). reflexivity.
Defined.

Example persisted_after_delete :
  localStorage (run Sample.stringify (Delete (Sample.uuid 1)) Sample.initial) !! key
  = Some (js "m0:Cutter A;m2:Welder C;m3:Lathe D;m4:Drill E;m5:Robot F;").
Proof. vm_compute. reflexivity. Qed.

(** ** Loading *)

Section LoadFacts.
Variable JSON_parse_text : list N -> option jsval.
Variable Date_parse : list N -> option Date.
Variable JSON_stringify : jsval -> list N.

(** The walk with [dateReviver] converts the date strings and nothing else,
    whatever the key it starts under. *)
Lemma internalize_dateReviver (v : jsval) :
  forall name,
    internalize (dateReviver Date_parse) name v = convert_date_strings Date_parse v.
Proof.
  induction v as [| b | x | str | t | elements IH | properties IH]
    using jsval_nested_ind; intros name; try reflexivity.
  - simpl. f_equal.
    generalize 0%nat. induction IH as [|x l Hx _ IHl]; intros I; [reflexivity|].
    simpl. rewrite Hx. f_equal. apply IHl.
  - simpl. f_equal.
    induction IH as [|kv l Hkv _ IHl]; [reflexivity|].
    simpl. rewrite Hkv. f_equal. apply IHl.
Qed.

Lemma convert_date_strings_leaves (v : jsval) :
  Forall (fun str => Date_parse str = None)
         (string_leaves (convert_date_strings Date_parse v)).
Proof.
  induction v as [| b | x | str | t | elements IH | properties IH]
    using jsval_nested_ind; simpl; try constructor.
  - destruct (Date_parse str) eqn:Hd; simpl; repeat constructor. exact Hd.
  - induction IH as [|x l Hx _ IHl]; simpl; [constructor|].
    apply Forall_app. split; assumption.
  - induction IH as [|kv l Hkv _ IHl]; simpl; [constructor|].
    apply Forall_app. split; assumption.
Qed.

(** C6, as amended.  The initialiser has three cases.  With a non-empty
    string under the key that parses, it returns the parsed value with every
    string leaf that is a valid date turned into that date, so that no string
    left in it is one, and writes nothing.  With no entry or the empty string
    under the key and a seed, it writes the serialized seed under the key and
    returns the seed.  With no entry or the empty string and no seed, it
    returns the default and writes nothing. *)
Theorem useLocalStorage_init_cases (key : list N) (initialValue : jsval)
  (seed : option jsval) (storage : gmap (list N) (list N)) :
  let init :=
    useLocalStorage_init JSON_stringify
      (fun text => JSON_parse JSON_parse_text text (dateReviver Date_parse))
      key initialValue seed storage in
  (forall stored raw,
     storage !! key = Some stored -> stored <> [] ->
     JSON_parse_text stored = Some raw ->
     init = Some (convert_date_strings Date_parse raw, storage)
     /\ Forall (fun str => Date_parse str = None)
               (string_leaves (convert_date_strings Date_parse raw)))
  /\ (forall sd,
        storage !! key = None \/ storage !! key = Some [] ->
        seed = Some sd ->
        init = Some (sd, <[key := JSON_stringify sd]> storage))
  /\ (storage !! key = None \/ storage !! key = Some [] ->
      seed = None ->
      init = Some (initialValue, storage)).
Proof.
  intros init. subst init. unfold useLocalStorage_init. split; [|split].
  - intros stored raw Hs Hne Hp. rewrite Hs.
    destruct stored as [|c stored]; [contradiction|]. simpl.
    unfold JSON_parse. rewrite Hp. simpl. rewrite internalize_dateReviver.
    split; [reflexivity | apply convert_date_strings_leaves].
  - intros sd [Hs | Hs] ->; rewrite Hs; reflexivity.
  - intros [Hs | Hs] ->; rewrite Hs; reflexivity.
Qed.

(** A non-empty string under the key that does not parse: the initialiser
    throws, whatever the seed. *)
Lemma useLocalStorage_init_throws (key : list N) (initialValue : jsval)
  (seed : option jsval) (storage : gmap (list N) (list N)) (stored : list N) :
  storage !! key = Some stored -> stored <> [] -> JSON_parse_text stored = None ->
  useLocalStorage_init JSON_stringify
    (fun text => JSON_parse JSON_parse_text text (dateReviver Date_parse))
    key initialValue seed storage
  = None.
Proof.
  intros Hs Hne Hp. unfold useLocalStorage_init. rewrite Hs.
  destruct stored; [contradiction|]. simpl. unfold JSON_parse. now rewrite Hp.
Qed.

(** An empty string under the key is passed over like a missing entry. *)
Lemma useLocalStorage_init_empty_string (key : list N) (initialValue sd : jsval)
  (storage : gmap (list N) (list N)) :
  storage !! key = Some [] ->
  useLocalStorage_init JSON_stringify
    (fun text => JSON_parse JSON_parse_text text (dateReviver Date_parse))
    key initialValue (Some sd) storage
  = Some (sd, <[key := JSON_stringify sd]> storage).
Proof. intros Hs. unfold useLocalStorage_init. now rewrite Hs. Qed.

(** After the initialiser, the effect of the first render writes the value
    under the key in all three cases, the default included. *)
Lemma useLocalStorage_mount_writes (key : list N) (initialValue : jsval)
  (seed : option jsval) (storage storage' : gmap (list N) (list N)) (v : jsval) :
  useLocalStorage_mount JSON_stringify
    (fun text => JSON_parse JSON_parse_text text (dateReviver Date_parse))
    key initialValue seed storage = Some (v, storage') ->
  storage' !! key = Some (JSON_stringify v).
Proof.
  unfold useLocalStorage_mount.
  destruct (useLocalStorage_init _ _ _ _ _ _) as [[value st]|]; [|discriminate].
  intros [= <- <-]. apply lookup_insert_eq.
Qed.

End LoadFacts.

Lemma useLocalStorage_init_cases_witness :
  useLocalStorage_init Sample.stringify_val
    (fun text => JSON_parse Sample.parse_text text (dateReviver Sample.date_parse))
    key JNull (Some (JBool true)) {[ key := Sample.document ]}
  = Some (JArray [JDate 0; JString (js "Press B")], {[ key := Sample.document ]})
  /\ useLocalStorage_init Sample.stringify_val
       (fun text => JSON_parse Sample.parse_text text (dateReviver Sample.date_parse))
       key JNull (Some (JBool true)) ∅
     = Some (JBool true, <[key := js "value"]> ∅)
  /\ useLocalStorage_init Sample.stringify_val
       (fun text => JSON_parse Sample.parse_text text (dateReviver Sample.date_parse))
       key JNull None ∅
     = Some (JNull, ∅).
Proof.
  split; [|split].
  - apply (proj1 (useLocalStorage_init_cases Sample.parse_text Sample.date_parse
                    Sample.stringify_val key JNull (Some (JBool true))
                    {[ key := Sample.document ]})
             Sample.document
             (JArray [JString (js "1970-01-01T00:00:00.000Z"); JString (js "Press B")])).
    + apply lookup_singleton_eq.
    + discriminate.
    + reflexivity.
  - apply (proj1 (proj2 (useLocalStorage_init_cases Sample.parse_text Sample.date_parse
                           Sample.stringify_val key JNull (Some (JBool true)) ∅))
             (JBool true)); [left; apply lookup_empty | reflexivity].
  - apply (proj2 (proj2 (useLocalStorage_init_cases Sample.parse_text Sample.date_parse
                           Sample.stringify_val key JNull None ∅)));
      [left; apply lookup_empty | reflexivity].
Defined.

(** C6 as stated fails on an empty string under the key: a value exists
    there, yet it is not deserialized (which would throw); the seed is
    written over it and returned. *)
Lemma useLocalStorage_init_empty_string_counterexample :
  ({[ key := [] ]} : gmap (list N) (list N)) !! key = Some []
  /\ useLocalStorage_init Sample.stringify_val
       (fun text => JSON_parse Sample.parse_text text (dateReviver Sample.date_parse))
       key JNull (Some (JBool true)) {[ key := [] ]}
     = Some (JBool true, <[key := js "value"]> {[ key := [] ]})
  /\ load_as_specified Sample.stringify_val
       (fun text => JSON_parse Sample.parse_text text (dateReviver Sample.date_parse))
       key JNull (Some (JBool true)) {[ key := [] ]}
     = None
  /\ useLocalStorage_init Sample.stringify_val
       (fun text => JSON_parse Sample.parse_text text (dateReviver Sample.date_parse))
       key JNull (Some (JBool true)) {[ key := [] ]}
     <> load_as_specified Sample.stringify_val
          (fun text => JSON_parse Sample.parse_text text (dateReviver Sample.date_parse))
          key JNull (Some (JBool true)) {[ key := [] ]}.
Proof.
  assert (({[ key := [] ]} : gmap (list N) (list N)) !! key = Some []) as Hs
    by apply lookup_singleton_eq.
  split; [exact Hs|].
  assert (useLocalStorage_init Sample.stringify_val
       (fun text => JSON_parse Sample.parse_text text (dateReviver Sample.date_parse))
       key JNull (Some (JBool true)) {[ key := [] ]}
     = Some (JBool true, <[key := js "value"]> {[ key := [] ]})) as Hinit
    by (unfold useLocalStorage_init; rewrite Hs; reflexivity).
  assert (load_as_specified Sample.stringify_val
       (fun text => JSON_parse Sample.parse_text text (dateReviver Sample.date_parse))
       key JNull (Some (JBool true)) {[ key := [] ]}
     = None) as Hspec
    by (unfold load_as_specified; rewrite Hs; reflexivity).
  split; [exact Hinit|]. split; [exact Hspec|].
  rewrite Hinit, Hspec. discriminate.
Qed.

(* ===================================================================== *)
(** * Part III: further properties of the code                             *)
(* ===================================================================== *)

(** ** More on the array methods *)

(** Inserting one item with [splice] puts it somewhere in the array and
    drops nothing, whatever the start, negative ones included. *)
Lemma splice_insert_somewhere {A : Type} (l : list A) (start : Z) (x : A) :
  exists k : nat,
    (k <= length l)%nat /\ splice l start 0 [x] = take k l ++ x :: drop k l.
Proof.
  unfold splice, splice_actualStart, splice_actualDeleteCount.
  set (len := Z.of_nat (length l)).
  set (a := if start <? 0 then Z.max (len + start) 0 else Z.min start len).
  assert (0 <= a <= len) as Ha by (subst a len; destruct (start <? 0) eqn:E; lia).
  exists (Z.to_nat a). split; [lia|].
  replace (Z.min (Z.max 0 0) (len - a)) with 0 by lia.
  now rewrite Z.add_0_r.
Qed.

Lemma NoDup_map_filter {A B : Type} (f : A -> B) (p : A -> bool) (l : list A) :
  NoDup (map f l) -> NoDup (map f (List.filter p l)).
Proof.
  induction l as [|x l IH]; simpl; [auto|].
  rewrite NoDup_cons. intros [Hx Hl].
  destruct (p x); simpl; [|auto].
  apply NoDup_cons. split; [|auto].
  rewrite list_elem_of_In in *. intros Hin. apply Hx.
  apply in_map_iff in Hin as (y & Hy & Hin). apply filter_In in Hin as [Hin _].
  apply in_map_iff. now exists y.
Qed.

(** ** More on the collection store *)

Section StoreMore.
Variable JSON_stringify : list Machine -> list N.
Implicit Types (s : State) (i : list N) (m u : Machine) (ms : list Machine).

Lemma map_id_replace u ms :
  map id (map (fun m => if bool_decide (id m = id u) then u else m) ms) = map id ms.
Proof.
  rewrite map_map. apply map_ext. intros m.
  destruct (bool_decide_reflect (id m = id u)); congruence.
Qed.

Lemma deleteMachine_lastDeleted i s d :
  lastDeleted (deleteMachine JSON_stringify i s) = Some d ->
  lastDeleted s = Some d /\ ~ In i (map id (machines s)) \/ id (machine d) = i.
Proof.
  destruct (decide (i ∈ map id (machines s))) as [Hin | Hn];
    rewrite list_elem_of_In in *.
  - destruct (first_occurrence i (machines s) Hin)
      as (l1 & m & l2 & Hms & Hm & Hl1 & _).
    rewrite (deleteMachine_present JSON_stringify i s l1 m l2 Hms Hm Hl1). simpl.
    intros [= <-]. now right.
  - rewrite deleteMachine_absent by exact Hn. intros Hd. now left.
Qed.

(** X1.  Uniqueness of ids is kept by every operation, as long as a record
    that is added brings an id that neither a record of the collection nor
    the buffered record carries. *)
Theorem ids_unique_preserved op s :
  ids_unique s ->
  (forall m, op = Add m ->
     ~ In (id m) (map id (machines s))
     /\ forall d, lastDeleted s = Some d -> id (machine d) <> id m) ->
  ids_unique (run JSON_stringify op s).
Proof.
  intros [Hnd Hbuf] Hfresh. destruct op as [m | u | i |]; simpl.
  - destruct (Hfresh m eq_refl) as [Hm Hd]. split; simpl.
    + rewrite map_app. apply NoDup_app. split; [exact Hnd|]. split.
      * intros x Hx Hx'. apply list_elem_of_In in Hx.
        apply list_elem_of_singleton in Hx'. now subst x.
      * apply NoDup_singleton.
    + intros d Hl. rewrite map_app, in_app_iff. intros [Hin | [Hin | []]].
      * now apply (Hbuf d).
      * now apply (Hd d).
  - split; simpl; rewrite map_id_replace; [exact Hnd | exact Hbuf].
  - split.
    + rewrite deleteMachine_machines. now apply NoDup_map_filter.
    + intros d Hd. rewrite deleteMachine_machines.
      apply deleteMachine_lastDeleted in Hd as [[Hd Hi] | Hd].
      * intros Hin. apply (Hbuf d Hd).
        apply in_map_iff in Hin as (x & Hx & Hin). apply filter_In in Hin as [Hin _].
        apply in_map_iff. now exists x.
      * rewrite Hd. apply filter_out_absent.
  - unfold undoDelete. destruct (lastDeleted s) as [d|] eqn:Hd;
      [|split; [exact Hnd | intros d; rewrite Hd; discriminate]].
    split; simpl; [|discriminate].
    destruct (splice_insert_somewhere (machines s) (index d) (machine d))
      as (k & Hk & ->).
    rewrite map_app. simpl.
    apply (NoDup_Permutation_proper _ _
             (Permutation_middle (map id (take k (machines s)))
                (map id (drop k (machines s))) (id (machine d)))).
    rewrite <- map_app, take_drop. apply NoDup_cons. split; [|exact Hnd].
    rewrite list_elem_of_In. now apply Hbuf.
Qed.

(** X2.  [addMachine] checks nothing: adding a record whose id is already
    carried by a record of the collection leaves two records with that id. *)
Theorem addMachine_duplicate_id m s :
  In (id m) (map id (machines s)) ->
  occurrences (id m) (machines (addMachine JSON_stringify m s))
  = S (occurrences (id m) (machines s))
  /\ ~ NoDup (map id (machines (addMachine JSON_stringify m s))).
Proof.
  intros Hin. simpl. split.
  - unfold occurrences. rewrite List.filter_app, length_app. simpl.
    rewrite bool_decide_eq_true_2 by reflexivity. simpl. lia.
  - rewrite map_app. intros Hnd. apply NoDup_app in Hnd as (_ & Hdis & _).
    apply (Hdis (id m)); [now apply list_elem_of_In | now left].
Qed.

(** X3.  Adding a record with an id new to the collection and deleting that
    id again gives back the collection as it was, with the record in the undo
    buffer at the index where it had been appended. *)
Theorem add_then_delete m s :
  ~ In (id m) (map id (machines s)) ->
  machines (deleteMachine JSON_stringify (id m) (addMachine JSON_stringify m s))
  = machines s
  /\ lastDeleted (deleteMachine JSON_stringify (id m) (addMachine JSON_stringify m s))
     = Some {| machine := m; index := Z.of_nat (length (machines s)) |}.
Proof.
  intros Hfresh.
  rewrite (deleteMachine_present JSON_stringify (id m)
             (addMachine JSON_stringify m s) (machines s) m []
             eq_refl eq_refl Hfresh).
  simpl. rewrite app_nil_r. split; reflexivity.
Qed.

(** X4.  A record added between a deletion and its undo does not disturb
    the undo: the deleted record comes back at its old index and the added
    one stays at the end. *)
Theorem delete_add_undo i m s :
  occurrences i (machines s) = 1%nat ->
  machines (undoDelete JSON_stringify
              (addMachine JSON_stringify m (deleteMachine JSON_stringify i s)))
  = machines s ++ [m]
  /\ lastDeleted (undoDelete JSON_stringify
                    (addMachine JSON_stringify m (deleteMachine JSON_stringify i s)))
     = None.
Proof.
  intros Hocc.
  destruct (once_decomposition i (machines s) Hocc)
    as (l1 & x & l2 & Hms & Hx & Hl1 & Hl2).
  rewrite (deleteMachine_present JSON_stringify i s l1 x l2 Hms Hx Hl1).
  rewrite (filter_negb_all_false _ l2) by now apply absent_all_false.
  unfold undoDelete, addMachine. simpl.
  rewrite splice_insert_at by (rewrite !length_app; lia).
  rewrite <- app_assoc, take_app_length, drop_app_length, Hms, <- app_assoc.
  split; reflexivity.
Qed.

(** X5.  Deleting the same id a second time changes nothing: the
    collection, the store and the undo buffer left by the first deletion
    stay. *)
Theorem deleteMachine_twice i s :
  deleteMachine JSON_stringify i (deleteMachine JSON_stringify i s)
  = deleteMachine JSON_stringify i s.
Proof.
  apply deleteMachine_absent. rewrite deleteMachine_machines.
  apply filter_out_absent.
Qed.

(** X6.  No operation writes under another key of the store or removes an
    entry: every other key reads as before, and a key that had an entry
    still has one. *)
Theorem run_other_keys op s (k : list N) :
  (k <> key -> localStorage (run JSON_stringify op s) !! k = localStorage s !! k)
  /\ (is_Some (localStorage s !! k) ->
      is_Some (localStorage (run JSON_stringify op s) !! k)).
Proof.
  assert (localStorage (run JSON_stringify op s) = localStorage s
          \/ exists v, localStorage (run JSON_stringify op s)
                       = <[key := v]> (localStorage s)) as [-> | [v ->]].
  { destruct op as [m | u | i |]; simpl.
    - right. eexists. reflexivity.
    - right. eexists. reflexivity.
    - unfold deleteMachine.
      destruct (findIndex _ (machines s) =? -1); [now left|].
      destruct (machines s !! _); [|now left].
      right. eexists. reflexivity.
    - unfold undoDelete. destruct (lastDeleted s); [|now left].
      right. eexists. reflexivity. }
  - split; auto.
  - split.
    + intros Hk. now apply lookup_insert_ne.
    + intros Hs. destruct (decide (key = k)) as [<- | Hk].
      * rewrite lookup_insert_eq. eauto.
      * now rewrite lookup_insert_ne.
Qed.

End StoreMore.

(** ** More on mounting the hook *)

Section MountMore.
Variable JSON_stringify : list Machine -> list N.
Variable JSON_parse_machines : list N -> option (list Machine).
Variable seed : list Machine.

(** X9.  With a non-empty string under the key, mounting never looks at
    the seed: the state is what that string parses to, with an empty undo
    buffer and its serialization written back; when the string does not parse
    mounting throws. *)
Theorem useMachines_mount_stored (storage : gmap (list N) (list N))
  (stored : list N) :
  storage !! key = Some stored -> stored <> [] ->
  useMachines_mount JSON_stringify JSON_parse_machines seed storage
  = (fun ms => {| machines := ms; lastDeleted := None;
                  localStorage := <[key := JSON_stringify ms]> storage |})
    <$> JSON_parse_machines stored.
Proof.
  intros Hs Hne.
  unfold useMachines_mount, useLocalStorage_mount, useLocalStorage_init.
  rewrite Hs. destruct stored as [|c stored]; [contradiction|]. simpl.
  destruct (JSON_parse_machines (c :: stored)); reflexivity.
Qed.

(** X10.  With no entry under the key, or the empty string, mounting
    gives the seed collection with an empty undo buffer and leaves the
    serialized seed under the key; the default [[]] is never used. *)
Theorem useMachines_mount_first_launch (storage : gmap (list N) (list N)) :
  storage !! key = None \/ storage !! key = Some [] ->
  useMachines_mount JSON_stringify JSON_parse_machines seed storage
  = Some {| machines := seed; lastDeleted := None;
            localStorage := <[key := JSON_stringify seed]> storage |}.
Proof.
  intros Hs.
  unfold useMachines_mount, useLocalStorage_mount, useLocalStorage_init.
  destruct Hs as [-> | ->]; simpl; unfold useLocalStorage_effect;
    now rewrite insert_insert_eq.
Qed.

(** X11.  Mounting again on the store a state has left behind (a reload):
    when the store holds the serialization of the collection and that text is
    not empty, the new state is what the text parses to, the undo buffer is
    empty whatever it held, and the seed plays no part. *)
Theorem reload_reads_snapshot (s : State) :
  persisted JSON_stringify s ->
  JSON_stringify (machines s) <> [] ->
  useMachines_mount JSON_stringify JSON_parse_machines seed (localStorage s)
  = (fun ms => {| machines := ms; lastDeleted := None;
                  localStorage := <[key := JSON_stringify ms]> (localStorage s) |})
    <$> JSON_parse_machines (JSON_stringify (machines s)).
Proof.
  unfold persisted. intros Hp Hne.
  unfold useMachines_mount, useLocalStorage_mount, useLocalStorage_init.
  rewrite Hp. destruct (JSON_stringify (machines s)) as [|c text] eqn:Ht;
    [contradiction|].
  simpl. destruct (JSON_parse_machines (c :: text)); reflexivity.
Qed.

End MountMore.

(** ** More on the reviver *)

Section ReviverMore.
Variable Date_parse : list N -> option Date.

Lemma convert_date_strings_no_dates (v : jsval) :
  Forall (fun str => Date_parse str = None) (string_leaves v) ->
  convert_date_strings Date_parse v = v.
Proof.
  induction v as [| b | x | str | t | elements IH | properties IH]
    using jsval_nested_ind; simpl; try reflexivity.
  - intros Hl. apply Forall_cons in Hl as [Hs _]. now rewrite Hs.
  - intros Hl. f_equal.
    induction IH as [|x l Hx _ IHl]; simpl in *; [reflexivity|].
    apply Forall_app in Hl as [Hl1 Hl2]. now rewrite Hx, IHl.
  - intros Hl. f_equal.
    induction IH as [|kv l Hkv _ IHl]; simpl in *; [reflexivity|].
    apply Forall_app in Hl as [Hl1 Hl2]. rewrite Hkv, IHl by assumption.
    now destruct kv.
Qed.

(** X12.  A parsed value none of whose string leaves is a valid date goes
    through the reviver walk unchanged. *)
Theorem internalize_dateReviver_no_dates (name : list N) (v : jsval) :
  Forall (fun str => Date_parse str = None) (string_leaves v) ->
  internalize (dateReviver Date_parse) name v = v.
Proof.
  intros Hl. rewrite internalize_dateReviver.
  now apply convert_date_strings_no_dates.
Qed.

(** X13.  Walking a value with the reviver a second time changes nothing
    more: the first walk leaves no string that is a valid date. *)
Theorem internalize_dateReviver_twice (name name' : list N) (v : jsval) :
  internalize (dateReviver Date_parse) name'
    (internalize (dateReviver Date_parse) name v)
  = internalize (dateReviver Date_parse) name v.
Proof.
  rewrite !internalize_dateReviver.
  apply convert_date_strings_no_dates, convert_date_strings_leaves.
Qed.

End ReviverMore.

(** ** More on the forms *)

Lemma trim_blank (s : list N) :
  Forall (fun c => isWhiteSpace c = true) s -> trim s = [].
Proof.
  intros Hs. unfold trim.
  assert (trimStart s = []) as ->; [|reflexivity].
  induction Hs as [|c s Hc _ IH]; simpl; [reflexivity|]. now rewrite Hc.
Qed.

(** X14.  A name made of whitespace only, however long, is turned down by
    the add form and by the edit form alike: what they act on stays as it
    was and the error message is set. *)
Theorem blank_name_rejected (nm : list N) :
  Forall (fun c => isWhiteSpace c = true) nm ->
  (forall onAdd uuid now st err s,
     submit onAdd uuid now
       {| form_name := nm; form_status := st; form_error := err |} s
     = ({| form_name := nm; form_status := st;
           form_error := js "Name must be at least 2 characters" |}, s))
  /\ (forall (X : Type) (onSave : Machine -> X -> X) machine now st err (x : X),
        save onSave machine now
          {| edit_name := nm; edit_status := st; edit_error := err |} x
        = ({| edit_name := nm; edit_status := st;
              edit_error := js "Name must be at least 2 characters" |}, x)).
Proof.
  intros Hnm. apply trim_blank in Hnm.
  split; intros; unfold submit, save; simpl; now rewrite Hnm.
Qed.

Section EditMore.
Variable JSON_stringify : list Machine -> list N.

(** X15.  Saving the edit form of a card.  With fewer than two code units
    in the trimmed name nothing is updated, the card stays in editing and the
    error is set.  Otherwise the card leaves editing, the ids of the
    collection and the undo buffer stay as they were, and every record that
    carries the machine's id becomes the machine with the name as typed, the
    chosen status and the time of the save. *)
Theorem save_validation (machine : Machine) (now : Date) (form : EditMachineForm)
  (editing : bool) (s : State) :
  let result :=
    save (MachineCard_onSave (updateMachine JSON_stringify)) machine now form
      (editing, s) in
  let edited :=
    {| id := id machine; name := edit_name form; status := edit_status form;
       lastUpdated := now |} in
  ((length (trim (edit_name form)) < 2)%nat ->
     snd result = (editing, s) /\ edit_error (fst result) <> [])
  /\ ((2 <= length (trim (edit_name form)))%nat ->
        fst (snd result) = false
        /\ fst result = form
        /\ map id (machines (snd (snd result))) = map id (machines s)
        /\ lastDeleted (snd (snd result)) = lastDeleted s
        /\ forall k : nat,
             machines (snd (snd result)) !! k
             = (fun m => if bool_decide (id m = id machine) then edited else m)
               <$> machines s !! k).
Proof.
  intros result edited. subst result. unfold save. split; intros Hlen.
  - apply Nat.ltb_lt in Hlen. rewrite Hlen. simpl. split; [reflexivity|discriminate].
  - apply Nat.ltb_ge in Hlen. rewrite Hlen. simpl.
    split; [reflexivity|]. split; [reflexivity|].
    split; [apply (map_id_replace edited)|]. split; [reflexivity|].
    intros k. apply (list_lookup_fmap
      (fun m => if bool_decide (id m = id machine) then edited else m)).
Qed.

End EditMore.

(** ** More on the view projection *)

Section ProjectionMore.
Variable toLowerCase : list N -> list N.
Variable JSON_stringify : list Machine -> list N.

Lemma filter_filter_comm {A : Type} (p q : A -> bool) (l : list A) :
  List.filter p (List.filter q l) = List.filter q (List.filter p l).
Proof.
  induction l as [|x l IH]; simpl; [reflexivity|].
  destruct (p x) eqn:Hp, (q x) eqn:Hq; simpl; rewrite ?Hp, ?Hq, IH; reflexivity.
Qed.

Lemma filter_all_true {A : Type} (p : A -> bool) (l : list A) :
  (forall x, p x = true) -> List.filter p l = l.
Proof.
  intros Hp. induction l as [|x l IH]; simpl; [reflexivity|].
  now rewrite Hp, IH.
Qed.

(** X16.  With the filter on [ALL] and an empty search text the projection
    is the collection itself. *)
Theorem filteredMachines_all_empty (ms : list Machine) :
  toLowerCase [] = [] ->
  filteredMachines toLowerCase ms ALL [] = ms.
Proof.
  intros He. unfold filteredMachines. rewrite He.
  apply filter_all_true. intros m. now rewrite includes_empty.
Qed.

(** X17.  Deleting an id takes the records of that id out of any view and
    leaves the rest of the view as it was. *)
Theorem filteredMachines_after_delete (i : list N) (s : State)
  (statusFilter : StatusFilterValue) (searchQuery : list N) :
  filteredMachines toLowerCase (machines (deleteMachine JSON_stringify i s))
    statusFilter searchQuery
  = List.filter (fun m => negb (bool_decide (id m = i)))
      (filteredMachines toLowerCase (machines s) statusFilter searchQuery).
Proof.
  rewrite deleteMachine_machines. unfold filteredMachines. apply filter_filter_comm.
Qed.

(** X18.  A record that is added shows at the end of a view when it passes
    the status filter and the search, and leaves the view as it was when it
    does not. *)
Theorem filteredMachines_after_add (m : Machine) (s : State)
  (statusFilter : StatusFilterValue) (searchQuery : list N) :
  filteredMachines toLowerCase (machines (addMachine JSON_stringify m s))
    statusFilter searchQuery
  = filteredMachines toLowerCase (machines s) statusFilter searchQuery
    ++ (if (bool_decide (statusFilter = ALL)
            || bool_decide (Status (status m) = statusFilter))
           && includes (toLowerCase (name m)) (toLowerCase searchQuery)
        then [m] else []).
Proof.
  unfold filteredMachines. simpl. rewrite List.filter_app. simpl.
  destruct (_ && _); reflexivity.
Qed.

End ProjectionMore.

(** ** More on [useLocalStorage] *)

Section HookMore.
Context {T : Type}.
Variable stringify : T -> list N.
Variable parse : list N -> option T.

(** X7.  Whenever mounting succeeds, the store afterwards holds the
    serialization of the value returned under the key, the default included
    when that is what the initialiser fell back to, and every other key reads
    as before. *)
Theorem useLocalStorage_mount_persists (k0 : list N) (initialValue : T)
  (seed : option T) (storage storage' : gmap (list N) (list N)) (v : T) :
  useLocalStorage_mount stringify parse k0 initialValue seed storage
  = Some (v, storage') ->
  storage' !! k0 = Some (stringify v)
  /\ forall k, k <> k0 -> storage' !! k = storage !! k.
Proof.
  unfold useLocalStorage_mount, useLocalStorage_init, useLocalStorage_effect.
  destruct (truthy (storage !! k0)).
  - destruct (parse _) as [w|]; [|discriminate].
    intros [= <- <-]. split; [apply lookup_insert_eq|].
    intros k Hk. now apply lookup_insert_ne.
  - destruct seed as [sd|]; intros [= <- <-];
      (split; [apply lookup_insert_eq|]); intros k Hk;
      now rewrite ?lookup_insert_ne by congruence.
Qed.

(** X8.  A non-empty string under the key that does not parse makes the
    initialiser, and with it mounting, throw: neither the seed nor the
    default is fallen back to, and nothing is returned. *)
Theorem useLocalStorage_corrupt_throws (k0 : list N) (initialValue : T)
  (seed : option T) (storage : gmap (list N) (list N)) (stored : list N) :
  storage !! k0 = Some stored -> stored <> [] -> parse stored = None ->
  useLocalStorage_init stringify parse k0 initialValue seed storage = None
  /\ useLocalStorage_mount stringify parse k0 initialValue seed storage = None.
Proof.
  intros Hs Hne Hp.
  assert (useLocalStorage_init stringify parse k0 initialValue seed storage = None)
    as Hinit.
  { unfold useLocalStorage_init. rewrite Hs.
    destruct stored; [contradiction|]. simpl. now rewrite Hp. }
  split; [exact Hinit|]. unfold useLocalStorage_mount. now rewrite Hinit.
Qed.

End HookMore.

Section StoreLate.
Variable JSON_stringify : list Machine -> list N.

(** X19.  An update that arrives for an id after that id was deleted
    changes neither the collection nor the undo buffer: the record is not
    brought back, and the buffer keeps the record as it was deleted. *)
Theorem update_after_delete (u : Machine) (s : State) :
  machines (updateMachine JSON_stringify u (deleteMachine JSON_stringify (id u) s))
  = machines (deleteMachine JSON_stringify (id u) s)
  /\ lastDeleted
       (updateMachine JSON_stringify u (deleteMachine JSON_stringify (id u) s))
     = lastDeleted (deleteMachine JSON_stringify (id u) s).
Proof.
  split; [|reflexivity]. simpl. apply map_replace_absent.
  rewrite deleteMachine_machines. apply filter_out_absent.
Qed.

End StoreLate.

(** ** The further properties on the sample data *)

Lemma ids_unique_preserved_witness :
  ids_unique (run Sample.stringify (Add Sample.newcomer) Sample.initial).
Proof.
  apply (ids_unique_preserved Sample.stringify (Add Sample.newcomer) Sample.initial).
  - split; [|discriminate].
    refine (bool_decide_unpack _ _). vm_compute. exact I.
  - intros m [= <-]. split; [|discriminate].
    intros H. vm_compute in H.
    repeat (destruct H as [H | H]; [discriminate H|]). exact H.
Defined.

Lemma addMachine_duplicate_id_witness :
  occurrences (id Sample.twin)
    (machines (addMachine Sample.stringify Sample.twin Sample.initial))
  = 2%nat.
Proof.
  apply (proj1 (addMachine_duplicate_id Sample.stringify Sample.twin Sample.initial
                  ltac:(right; left; reflexivity))).
Defined.

Lemma add_then_delete_witness :
  machines (deleteMachine Sample.stringify (id Sample.newcomer)
              (addMachine Sample.stringify Sample.newcomer Sample.initial))
  = Sample.seed.
Proof.
  apply (proj1 (add_then_delete Sample.stringify Sample.newcomer Sample.initial
                  ltac:(intros H; vm_compute in H;
                        repeat (destruct H as [H | H]; [discriminate H|]);
                        exact H))).
Defined.

Lemma delete_add_undo_witness :
  machines (undoDelete Sample.stringify
              (addMachine Sample.stringify Sample.newcomer
                 (deleteMachine Sample.stringify (Sample.uuid 1) Sample.initial)))
  = Sample.seed ++ [Sample.newcomer].
Proof.
  apply (proj1 (delete_add_undo Sample.stringify (Sample.uuid 1) Sample.newcomer
                  Sample.initial eq_refl)).
Defined.

Lemma run_other_keys_witness :
  localStorage (run Sample.stringify (Add Sample.newcomer)
                  {| machines := Sample.seed; lastDeleted := None;
                     localStorage := {[ js "theme" := js "dark" ]} |})
    !! js "theme"
  = Some (js "dark").
Proof.
  rewrite (proj1 (run_other_keys Sample.stringify (Add Sample.newcomer)
                    {| machines := Sample.seed; lastDeleted := None;
                       localStorage := {[ js "theme" := js "dark" ]} |}
                    (js "theme")) ltac:(discriminate)).
  apply lookup_singleton_eq.
Defined.

Lemma useLocalStorage_mount_persists_witness :
  <[key := js "null"]> (∅ : gmap (list N) (list N)) !! key = Some (js "null").
Proof.
  assert (useLocalStorage_mount Sample.stringify_val
            (fun text => JSON_parse Sample.parse_text text
                           (dateReviver Sample.date_parse))
            key JNull None ∅
          = Some (JNull, <[key := js "null"]> ∅)) as Hmount by reflexivity.
  apply (proj1 (useLocalStorage_mount_persists Sample.stringify_val _
                  key JNull None ∅ _ JNull Hmount)).
Defined.

Lemma useLocalStorage_corrupt_throws_witness :
  useLocalStorage_mount Sample.stringify_val
    (fun text => JSON_parse Sample.parse_text text (dateReviver Sample.date_parse))
    key JNull (Some (JBool true)) {[ key := js "{oops" ]}
  = None.
Proof.
  apply (proj2 (useLocalStorage_corrupt_throws Sample.stringify_val
                  (fun text => JSON_parse Sample.parse_text text
                                 (dateReviver Sample.date_parse))
                  key JNull (Some (JBool true)) {[ key := js "{oops" ]} (js "{oops")
                  (lookup_singleton_eq _ _) ltac:(discriminate) eq_refl)).
Defined.

Lemma useMachines_mount_stored_witness :
  useMachines_mount Sample.stringify Sample.parse_seed [] 
    {[ key := Sample.stringify Sample.seed ]}
  = Some {| machines := Sample.seed; lastDeleted := None;
            localStorage := <[key := Sample.stringify Sample.seed]>
                              {[ key := Sample.stringify Sample.seed ]} |}.
Proof.
  rewrite (useMachines_mount_stored Sample.stringify Sample.parse_seed []
             {[ key := Sample.stringify Sample.seed ]}
             (Sample.stringify Sample.seed)
             (lookup_singleton_eq _ _) ltac:(discriminate)).
  reflexivity.
Defined.

Lemma useMachines_mount_first_launch_witness :
  useMachines_mount Sample.stringify Sample.parse_seed Sample.seed ∅
  = Some {| machines := Sample.seed; lastDeleted := None;
            localStorage := <[key := Sample.stringify Sample.seed]> ∅ |}.
Proof.
  apply (useMachines_mount_first_launch Sample.stringify Sample.parse_seed
           Sample.seed ∅).
  left. apply lookup_empty.
Defined.

Lemma reload_reads_snapshot_witness :
  machines <$>
    useMachines_mount Sample.stringify Sample.parse_seed []
      (localStorage (setMachines Sample.stringify Sample.seed Sample.with_twins))
  = Some Sample.seed.
Proof.
  rewrite (reload_reads_snapshot Sample.stringify Sample.parse_seed []
             (setMachines Sample.stringify Sample.seed Sample.with_twins)
             (lookup_insert_eq _ _ _) ltac:(discriminate)).
  reflexivity.
Defined.

Lemma internalize_dateReviver_no_dates_witness :
  internalize (dateReviver Sample.date_parse) []
    (JObject [(js "name", JString (js "Press B")); (js "tags", JArray [JNull])])
  = JObject [(js "name", JString (js "Press B")); (js "tags", JArray [JNull])].
Proof.
  apply (internalize_dateReviver_no_dates Sample.date_parse).
  repeat constructor.
Defined.

Lemma blank_name_rejected_witness :
  snd (submit (addMachine Sample.stringify) (js "m6") 1700000000002
         {| form_name := js "    "; form_status := Idle; form_error := [] |}
         Sample.initial)
  = Sample.initial.
Proof.
  rewrite (proj1 (blank_name_rejected (js "    ") ltac:(repeat constructor))
             (addMachine Sample.stringify) (js "m6") 1700000000002 Idle []
             Sample.initial).
  reflexivity.
Defined.

Lemma save_validation_witness :
  snd (save (MachineCard_onSave (updateMachine Sample.stringify)) Sample.twin
         1700000000004
         {| edit_name := js " B"; edit_status := Idle; edit_error := [] |}
         (true, Sample.initial))
  = (true, Sample.initial)
  /\ map id (machines (snd (snd
       (save (MachineCard_onSave (updateMachine Sample.stringify)) Sample.twin
          1700000000004 (EditMachineForm_open Sample.twin)
          (true, Sample.initial)))))
     = map id Sample.seed.
Proof.
  split.
  - apply (proj1 (save_validation Sample.stringify Sample.twin 1700000000004
                    {| edit_name := js " B"; edit_status := Idle; edit_error := [] |}
                    true Sample.initial)).
    vm_compute. lia.
  - apply (proj2 (save_validation Sample.stringify Sample.twin 1700000000004
                    (EditMachineForm_open Sample.twin) true Sample.initial)).
    vm_compute. lia.
Defined.

Lemma filteredMachines_all_empty_witness :
  filteredMachines Sample.toLowerCase Sample.seed ALL [] = Sample.seed.
Proof.
  apply (filteredMachines_all_empty Sample.toLowerCase Sample.seed eq_refl).
Defined.
